(** * Host-authoritative state synchronisation of [useGameConnection]

    A shallow embedding of [src/hooks/useGameConnection.ts]: the hook's
    local state, the message handler, the channel-close handler, the
    broadcast entry point and the host/join operations, followed by the
    properties of the replication protocol. *)

From stdpp Require Import gmap strings list fin_maps.
From Stdlib Require Import ZArith Lia.

Set Default Proof Using "Type".

(** ** Data model *)

(** [type ConnectionStatus] and [type PlayerRole] of the source. *)
Inductive ConnectionStatus := disconnected | connecting | connected | error.
Inductive PlayerRole := host | peer | none.

#[global] Instance PlayerRole_eq_dec : EqDecision PlayerRole.
Proof. solve_decision. Defined.

(** What the handlers read of a PeerJS [DataConnection]: [conn.peer] and
    [conn.open]. *)
Record DataConnection := mkConn { conn_peer : string; conn_open : bool }.

#[global] Instance DataConnection_eq_dec : EqDecision DataConnection.
Proof. solve_decision. Defined.

Section Protocol.

(** [Player] and [GameState] are declared in [@/lib/game]; the hook touches
    the fields below.  The card type and the game-rule fields of a state
    that the hook copies with [...currentGameState] stay abstract. *)
Context {Card Rules : Type}.

Record Player := mkPlayer {
  id : Z;
  peerId : string;
  name : string;
  hand : list Card;
  isBidder : bool;
  isPartner : bool;
  collectedCards : list Card;
  tricksWon : Z
}.

(** The state's own [id] field (the room code) is [room_id] here, since
    [id] names the player's field. *)
Record GameState := mkGameState {
  room_id : string;
  hostPeerId : string;
  players : list Player;
  playerCount : Z;
  turnHistory : list string;
  rules : Rules
}.

(** [{ ...g, players: ps, turnHistory: th }] *)
Definition with_players_history (g : GameState) (ps : list Player)
    (th : list string) : GameState :=
  {| room_id := room_id g; hostPeerId := hostPeerId g; players := ps;
     playerCount := playerCount g; turnHistory := th; rules := rules g |}.

(** [{ ...g, id: code, hostPeerId: h }] *)
Definition with_room (g : GameState) (code h : string) : GameState :=
  {| room_id := code; hostPeerId := h; players := players g;
     playerCount := playerCount g; turnHistory := turnHistory g;
     rules := rules g |}.

(** [type Message] *)
Inductive Message :=
  | game_state_update (payload : GameState)
  | player_join_request (payload_peerId payload_playerName : string)
  | game_full
  | welcome (payload : GameState).

(** What a handler does to the outside: [conn.send(m)] on a connection
    object and [toast({title})]. *)
Inductive Effect :=
  | Send (conn : DataConnection) (m : Message)
  | Toast (title : string).

(** The hook's local state: the [useState] cells, [gameStateRef.current],
    [connectionsRef.current] and whether [peerRef.current] is set.  A
    handler reads [role] from the render that built it; the field is that
    value.  An installed handler keeps the role of its render, so a
    [setRole] is not to be followed by a handler that was installed before
    it and tests the role. *)
Record Hook := mkHook {
  myPeerId : string;
  status : ConnectionStatus;
  role : PlayerRole;
  gameState : option GameState;
  gameStateRef : option GameState;
  connectionsRef : gmap string DataConnection;
  peerRef : bool
}.

Definition set_status (s : ConnectionStatus) (h : Hook) : Hook :=
  {| myPeerId := myPeerId h; status := s; role := role h;
     gameState := gameState h; gameStateRef := gameStateRef h;
     connectionsRef := connectionsRef h; peerRef := peerRef h |}.

Definition set_role (r : PlayerRole) (h : Hook) : Hook :=
  {| myPeerId := myPeerId h; status := status h; role := r;
     gameState := gameState h; gameStateRef := gameStateRef h;
     connectionsRef := connectionsRef h; peerRef := peerRef h |}.

Definition set_gameState (g : option GameState) (h : Hook) : Hook :=
  {| myPeerId := myPeerId h; status := status h; role := role h;
     gameState := g; gameStateRef := gameStateRef h;
     connectionsRef := connectionsRef h; peerRef := peerRef h |}.

Definition set_gameStateRef (g : option GameState) (h : Hook) : Hook :=
  {| myPeerId := myPeerId h; status := status h; role := role h;
     gameState := gameState h; gameStateRef := g;
     connectionsRef := connectionsRef h; peerRef := peerRef h |}.

Definition set_connections (c : gmap string DataConnection) (h : Hook) : Hook :=
  {| myPeerId := myPeerId h; status := status h; role := role h;
     gameState := gameState h; gameStateRef := gameStateRef h;
     connectionsRef := c; peerRef := peerRef h |}.

(** ** A state-and-output monad for the handlers *)

Definition M (A : Type) : Type := Hook → A * Hook * list Effect.

#[global] Instance M_ret : MRet M := λ A a h, (a, h, []).
#[global] Instance M_bind : MBind M := λ A B f m h,
  let r1 := m h in
  let r2 := f r1.1.1 r1.1.2 in
  (r2.1.1, r2.1.2, r1.2 ++ r2.2).

Definition read {A} (f : Hook → A) : M A := λ h, (f h, h, []).
Definition modify (f : Hook → Hook) : M unit := λ h, (tt, f h, []).
Definition emit (out : list Effect) : M unit := λ h, (tt, h, out).

Definition setRole (r : PlayerRole) : M unit := modify (set_role r).
Definition setGameState (g : option GameState) : M unit :=
  modify (set_gameState g).
Definition setStatus (s : ConnectionStatus) : M unit := modify (set_status s).
Definition toast (title : string) : M unit := emit [Toast title].

(** The state and the output a handler leaves. *)
Definition exec {A} (m : M A) (h : Hook) : Hook := (m h).1.2.
Definition output {A} (m : M A) (h : Hook) : list Effect := (m h).2.

(** [connectionsRef.current[k]?.send(m)].  The map holds the registry's
    own entries.  The registry is a plain object, so a key with no entry of
    its own that names a member of [Object.prototype] does not yield
    [undefined]: [?.send] on that member raises a [TypeError] and the
    handler stops.  The lookup below is the source's for all other keys;
    see [inherited_key]. *)
Definition send_to (k : string) (m : Message) : M unit :=
  conns ← read connectionsRef;
  match conns !! k with
  | Some conn => emit [Send conn m]
  | None => mret tt
  end.

(** ** The hook's operations *)

(** The sends of [Object.values(connectionsRef.current).forEach(...)]: one
    per registered connection whose [open] is set.  They come in the order
    of [map_to_list], where JavaScript goes by insertion; the properties
    below speak of membership only. *)
Definition broadcast_sends (conns : gmap string DataConnection)
    (newState : GameState) : list Effect :=
  (λ conn, Send conn (game_state_update newState))
    <$> filter (λ conn, conn_open conn = true) (snd <$> map_to_list conns).

Definition broadcastGameState (newState : GameState) : M unit :=
  r ← read role;
  if decide (r = host) then
    conns ← read connectionsRef;
    emit (broadcast_sends conns newState);;
    setGameState (Some newState)
  else mret tt.

Definition joined_notice (playerName : string) : string :=
  playerName +:+ " has joined.".

Definition handleIncomingMessage (message : Message) (fromPeerId : string)
    : M unit :=
  match message with
  | game_state_update payload =>
      r ← read role;
      if decide (r = peer) then setGameState (Some payload) else mret tt
  | player_join_request payload_peerId payload_playerName =>
      r ← read role;
      cur ← read gameStateRef;
      match decide (r = host), cur with
      | left _, Some currentGameState =>
          if (playerCount currentGameState
                <=? Z.of_nat (length (players currentGameState)))%Z
          then send_to fromPeerId game_full
          else
            let newPlayer :=
              {| id := Z.of_nat (length (players currentGameState));
                 peerId := payload_peerId;
                 name := payload_playerName;
                 hand := []; isBidder := false; isPartner := false;
                 collectedCards := []; tricksWon := 0 |} in
            let newGameState :=
              with_players_history currentGameState
                (players currentGameState ++ [newPlayer])
                (turnHistory currentGameState
                   ++ [joined_notice (name newPlayer)]) in
            send_to fromPeerId (welcome newGameState);;
            broadcastGameState newGameState
      | _, _ => mret tt
      end
  | welcome payload => setGameState (Some payload)
  | game_full => toast "Game is full";; setRole none
  end.

Definition disconnect_notice : string := "A player has disconnected.".

(** The [close] handler that the [connection] event installs on [conn].
    The registry is read as the transport left it. *)
Definition handleClose (conn : DataConnection) : M unit :=
  r ← read role;
  cur ← read gameStateRef;
  match decide (r = host), cur with
  | left _, Some g =>
      let newPlayers :=
        filter (λ p, peerId p ≠ conn_peer conn) (players g) in
      if (length newPlayers <? length (players g))%nat then
        broadcastGameState
          (with_players_history g newPlayers
             (turnHistory g ++ [disconnect_notice]))
      else mret tt
  | _, _ => mret tt
  end;;
  modify (λ h, set_connections (delete (conn_peer conn) (connectionsRef h)) h).

(** [newPeer.on('connection', ...)]:
    [connectionsRef.current[conn.peer] = conn]. *)
Definition handleConnection (conn : DataConnection) : M unit :=
  modify (λ h, set_connections (<[conn_peer conn := conn]> (connectionsRef h)) h).

(** [newPeer.on('error', ...)]; the argument tells whether [err.type] is
    ['peer-unavailable']. *)
Definition handlePeerError (peer_unavailable : bool) : M unit :=
  (if peer_unavailable then
     toast "Could Not Join";; setRole none;; setGameState None
   else toast "Connection Error");;
  setStatus error.

(** [hostGame]; [roomCode] is what [generateRoomCode()] returned. *)
Definition hostGame (roomCode : string) (initialState : GameState) : M unit :=
  me ← read myPeerId;
  if decide (me = "") then toast "Error"
  else
    setRole host;;
    setGameState (Some (with_room initialState roomCode me)).

(** [joinGame], up to the handlers it installs on the new connection. *)
Definition joinGame (hostPeerId : string) : M unit :=
  ready ← read peerRef;
  me ← read myPeerId;
  if negb ready || bool_decide (me = "") then toast "Connection not ready"
  else setRole peer.

(** The [open] handler of the connection [joinGame] made. *)
Definition handleJoinOpen (localPlayerName : string) (conn : DataConnection)
    (hostPeerId : string) : M unit :=
  modify (λ h, set_connections (<[hostPeerId := conn]> (connectionsRef h)) h);;
  me ← read myPeerId;
  emit [Send conn (player_join_request me localPlayerName)].

(** The [error] handler of the connection [joinGame] made. *)
Definition handleJoinError : M unit :=
  toast "Failed to Join";; setRole none.

(** [useEffect(() => { gameStateRef.current = gameState; }, [gameState])] *)
Definition commit (h : Hook) : Hook := set_gameStateRef (gameState h) h.

(** ** Events

    Each transport event runs its handler to completion; the render that
    follows copies [gameState] into [gameStateRef].  [step] is one event
    and its render; events handled back to back, before the effect has run,
    are a [handle_batch]. *)
Inductive Event :=
  | EvData (message : Message) (fromPeerId : string)
  | EvClose (conn : DataConnection)
  | EvConnection (conn : DataConnection).

Definition dispatch (ev : Event) : M unit :=
  match ev with
  | EvData message fromPeerId => handleIncomingMessage message fromPeerId
  | EvClose conn => handleClose conn
  | EvConnection conn => handleConnection conn
  end.

Definition step (h : Hook) (ev : Event) : Hook := commit (exec (dispatch ev) h).

Definition run (h : Hook) (evs : list Event) : Hook := foldl step h evs.

(** The player the host builds for a join request, and the state it
    builds around it. *)
Definition joined_player (g : GameState) (pid pname : string) : Player :=
  mkPlayer (Z.of_nat (length (players g))) pid pname [] false false [] 0.

Definition joined_state (g : GameState) (pid pname : string) : GameState :=
  with_players_history g (players g ++ [joined_player g pid pname])
    (turnHistory g ++ [pname +:+ " has joined."]).

(** The state the host builds when the channel of [closedPeer] closes. *)
Definition left_state (g : GameState) (closedPeer : string) : GameState :=
  with_players_history g
    (filter (λ p, peerId p ≠ closedPeer) (players g))
    (turnHistory g ++ ["A player has disconnected."]).

(** Envelopes that carry a state. *)
Definition carried_state (message : Message) : option GameState :=
  match message with
  | game_state_update payload | welcome payload => Some payload
  | _ => None
  end.

(** The host's capacity bound on a state cell. *)
Definition within_capacity (o : option GameState) : Prop :=
  match o with
  | Some g => (Z.of_nat (length (players g)) ≤ playerCount g)%Z
  | None => True
  end.

(** A replica that takes state only from the channel of [hostId]: what a
    state-bearing envelope from anyone else would have to leave alone. *)
Definition accepts_state_only_from (hostId : string) (h : Hook) : Prop :=
  ∀ message fromPeerId,
    fromPeerId ≠ hostId →
    is_Some (carried_state message) →
    gameState (exec (handleIncomingMessage message fromPeerId) h)
    = gameState h.

(** No channel gets both the [welcome] and the [game_state_update] of one
    handled envelope. *)
Definition welcomed_not_updated (message : Message) (fromPeerId : string)
    (h : Hook) : Prop :=
  ∀ conn newState,
    Send conn (welcome newState)
      ∈ output (handleIncomingMessage message fromPeerId) h →
    Send conn (game_state_update newState)
      ∉ output (handleIncomingMessage message fromPeerId) h.

(** The role is the same after any envelope. *)
Definition role_ignores_messages (h : Hook) : Prop :=
  ∀ message fromPeerId,
    role (exec (handleIncomingMessage message fromPeerId) h) = role h.

(** Ids that are the positions in [players]. *)
Definition ids_indexed (g : GameState) : Prop :=
  id <$> players g = Z.of_nat <$> seq 0 (length (players g)).

(** The events of a hosting session: join requests, channel closes and
    incoming connections. *)
Definition host_event (ev : Event) : bool :=
  match ev with
  | EvData (player_join_request _ _) _ | EvClose _ | EvConnection _ => true
  | EvData _ _ => false
  end.

(** What the host keeps true: it is the host, and both state cells are
    within capacity. *)
Definition host_invariant (h : Hook) : Prop :=
  role h = host
  ∧ within_capacity (gameState h)
  ∧ within_capacity (gameStateRef h).

(** *** The peer's own handlers and the predicates of the further
    properties *)

Definition set_myPeerId (newId : string) (h : Hook) : Hook :=
  {| myPeerId := newId; status := status h; role := role h;
     gameState := gameState h; gameStateRef := gameStateRef h;
     connectionsRef := connectionsRef h; peerRef := peerRef h |}.

(** [newPeer.on('open', (id) => { setMyPeerId(id);
    setStatus('connected'); })] *)
Definition handlePeerOpen (newId : string) : M unit :=
  modify (set_myPeerId newId);; setStatus connected.

(** Join requests; join requests and incoming connections. *)
Definition join_event (ev : Event) : bool :=
  match ev with
  | EvData (player_join_request _ _) _ => true
  | _ => false
  end.

Definition seating_event (ev : Event) : bool :=
  match ev with
  | EvData (player_join_request _ _) _ | EvConnection _ => true
  | _ => false
  end.

(** The state an event brings, if it is a state-bearing envelope. *)
Definition event_state (ev : Event) : option GameState :=
  match ev with
  | EvData message _ => carried_state message
  | _ => None
  end.

(** Both state cells hold [g]: the hook after a render. *)
Definition synced (h : Hook) (g : GameState) : Prop :=
  gameState h = Some g ∧ gameStateRef h = Some g.

(** [g'] is [g] up to its players and a longer history. *)
Definition same_room (g g' : GameState) : Prop :=
  room_id g' = room_id g
  ∧ hostPeerId g' = hostPeerId g
  ∧ playerCount g' = playerCount g
  ∧ rules g' = rules g
  ∧ turnHistory g `prefix_of` turnHistory g'.

(** The game state a synced host holds after an event, read off
    [handleIncomingMessage] and the close handler: a join request seats a
    player while there is room, a close removes the players of the closed
    peer, anything else keeps the state. *)
Definition host_next (g : GameState) (ev : Event) : GameState :=
  match ev with
  | EvData (player_join_request pid pname) _ =>
      if (playerCount g <=? Z.of_nat (length (players g)))%Z then g
      else joined_state g pid pname
  | EvClose conn =>
      if (length (filter (λ p, peerId p ≠ conn_peer conn) (players g))
            <? length (players g))%nat
      then left_state g (conn_peer conn)
      else g
  | _ => g
  end.

(** Events handled back to back: every handler reads the [gameStateRef]
    the last render left, and the effect runs once after them. *)
Definition handle_batch (h : Hook) (batch : list Event) : Hook :=
  commit (foldl (λ h' ev, exec (dispatch ev) h') h batch).

Definition run_batches (h : Hook) (batches : list (list Event)) : Hook :=
  foldl handle_batch h batches.

(** The string-keyed members of [Object.prototype]: what a plain object
    yields for these keys when it has no entry of its own. *)
Definition object_prototype_keys : list string :=
  ["constructor"; "hasOwnProperty"; "isPrototypeOf"; "propertyIsEnumerable";
   "toLocaleString"; "toString"; "valueOf"; "__proto__";
   "__defineGetter__"; "__defineSetter__"; "__lookupGetter__";
   "__lookupSetter__"].

Definition inherited_key (k : string) : bool :=
  bool_decide (k ∈ object_prototype_keys).

End Protocol.

Arguments Player : clear implicits.
Arguments GameState : clear implicits.
Arguments Message : clear implicits.
Arguments Effect : clear implicits.
Arguments Hook : clear implicits.
Arguments Event : clear implicits.
Arguments M : clear implicits.

(** ** Scenarios

    Concrete sessions, with no cards and no rule fields. *)

Definition chan (p : string) : DataConnection := mkConn p true.

Definition seat (n : Z) (p pname : string) : Player unit :=
  mkPlayer n p pname [] false false [] 0.

(** A fresh room for four, hosted by ["host-id"]. *)
Definition room0 : GameState unit unit :=
  mkGameState "ROOM" "host-id" [] 4 [] tt.

(** A room for one, taken by Alice. *)
Definition full_room : GameState unit unit :=
  mkGameState "ROOM" "host-id" [seat 0 "pA" "Alice"] 1
    ["Alice has joined."] tt.

(** Alice and Bob seated in a room for four. *)
Definition duo_room : GameState unit unit :=
  mkGameState "ROOM" "host-id" [seat 0 "pA" "Alice"; seat 1 "pB" "Bob"] 4
    ["Alice has joined."; "Bob has joined."] tt.

(** A state no host sent. *)
Definition forged_room : GameState unit unit :=
  mkGameState "ROOM" "mallory" [seat 0 "mallory" "Mallory"] 1 ["forged"] tt.

Definition hosting (g : GameState unit unit)
    (conns : gmap string DataConnection) : Hook unit unit :=
  mkHook "host-id" connected host (Some g) (Some g) conns true.

(** The host of [room0] with Alice's channel open. *)
Definition lobby : Hook unit unit := hosting room0 {["pA" := chan "pA"]}.

(** The host of [full_room] with Alice's and Bob's channels open. *)
Definition full_house : Hook unit unit :=
  hosting full_room {["pA" := chan "pA"; "pB" := chan "pB"]}.

(** The host of [duo_room] with Alice's channel open and Bob's closed. *)
Definition duo_host : Hook unit unit :=
  hosting duo_room {["pA" := chan "pA"; "pB" := mkConn "pB" false]}.

(** A peer that joined ["host-id"] and holds [room0]. *)
Definition replica : Hook unit unit :=
  mkHook "peer-id" connected peer (Some room0) (Some room0)
    {["host-id" := chan "host-id"]} true.

(** Alice and Bob join, Alice's channel closes, Cara joins. *)
Definition churn : list (Event unit unit) :=
  [EvConnection (chan "pA");
   EvData (player_join_request "pA" "Alice") "pA";
   EvConnection (chan "pB");
   EvData (player_join_request "pB" "Bob") "pB";
   EvClose (chan "pA");
   EvConnection (chan "pC");
   EvData (player_join_request "pC" "Cara") "pC"].

Definition player_ids {Card Rules} (o : option (GameState Card Rules))
    : list Z :=
  match o with
  | Some g => id <$> players g
  | None => []
  end.

(** A process whose PeerJS peer is not open yet. *)
Definition fresh : Hook unit unit :=
  mkHook "" connecting none None None ∅ true.

(** A process with an open peer and no role. *)
Definition idle : Hook unit unit :=
  mkHook "peer-id" connected none None None ∅ true.

(** Bob, then Cara, then Dan ask for a seat. *)
Definition three_requests : list (Event unit unit) :=
  [EvData (player_join_request "pB" "Bob") "pB";
   EvData (player_join_request "pC" "Cara") "pC";
   EvData (player_join_request "pD" "Dan") "pD"].

(** Two states arrive, one as an update from a stranger, one as a
    welcome. *)
Definition two_states : list (Event unit unit) :=
  [EvData (game_state_update forged_room) "mallory";
   EvData (welcome duo_room) "host-id"].

(** A state with more players than its capacity. *)
Definition crowded_room : GameState unit unit :=
  mkGameState "ROOM" "mallory"
    [seat 0 "pA" "Alice"; seat 1 "pB" "Bob"] 1 [] tt.

(** The host of [duo_room] with the channels of Cara, Dan and Eve open,
    and their join requests, each handled in a render of its own. *)
Definition busy_host : Hook unit unit :=
  hosting duo_room
    {["pC" := chan "pC"; "pD" := chan "pD"; "pE" := chan "pE"]}.

Definition three_batches : list (list (Event unit unit)) :=
  [[EvData (player_join_request "pC" "Cara") "pC"];
   [EvData (player_join_request "pD" "Dan") "pD"];
   [EvData (player_join_request "pE" "Eve") "pE"]].

(** ** Properties *)

Section Properties.

Context {Card Rules : Type}.
Implicit Types (h : Hook Card Rules) (g s : GameState Card Rules).
Implicit Types (message : Message Card Rules) (conn : DataConnection).
Implicit Types (ev : Event Card Rules).

#[local] Arguments Nat.ltb : simpl never.
#[local] Arguments Z.leb : simpl never.

(** *** Equations of the operations *)

Lemma bind_eq {A B} (m : M Card Rules A) (f : A → M Card Rules B) h :
  (m ≫= f) h
  = ((f (m h).1.1 (m h).1.2).1.1, (f (m h).1.1 (m h).1.2).1.2,
     (m h).2 ++ (f (m h).1.1 (m h).1.2).2).
Proof. reflexivity. Qed.

Lemma send_to_Some h (k : string) message conn :
  connectionsRef h !! k = Some conn →
  send_to k message h = (tt, h, [Send conn message]).
Proof. intros Hk. unfold send_to. rewrite bind_eq. cbn. by rewrite Hk. Qed.

Lemma send_to_None h (k : string) message :
  connectionsRef h !! k = None → send_to k message h = (tt, h, []).
Proof. intros Hk. unfold send_to. rewrite bind_eq. cbn. by rewrite Hk. Qed.

Lemma broadcastGameState_host h s :
  role h = host →
  broadcastGameState s h
  = (tt, set_gameState (Some s) h, broadcast_sends (connectionsRef h) s).
Proof.
  intros Hr. unfold broadcastGameState, mbind, M_bind, read. cbn.
  rewrite decide_True by done. cbn. by rewrite app_nil_r.
Qed.

Lemma broadcastGameState_other h s :
  role h ≠ host → broadcastGameState s h = (tt, h, []).
Proof.
  intros Hr. unfold broadcastGameState, mbind, M_bind, read. cbn.
  by rewrite decide_False by done.
Qed.

Lemma join_request_host h g (fromPeerId pid pname : string) :
  role h = host →
  gameStateRef h = Some g →
  handleIncomingMessage (player_join_request pid pname) fromPeerId h
  = if (playerCount g <=? Z.of_nat (length (players g)))%Z
    then send_to fromPeerId game_full h
    else (send_to fromPeerId (welcome (joined_state g pid pname));;
          broadcastGameState (joined_state g pid pname)) h.
Proof.
  intros Hr Hg. unfold handleIncomingMessage, mbind at 1 2, M_bind, read. cbn.
  destruct (decide (role h = host)); [|done]. rewrite Hg.
  by destruct (playerCount g <=? Z.of_nat (length (players g)))%Z.
Qed.

Lemma join_request_not_host h (fromPeerId pid pname : string) :
  role h ≠ host →
  handleIncomingMessage (player_join_request pid pname) fromPeerId h
  = (tt, h, []).
Proof.
  intros Hr. unfold handleIncomingMessage, mbind, M_bind, read. cbn.
  by destruct (decide (role h = host)).
Qed.

Lemma join_request_no_state h (fromPeerId pid pname : string) :
  gameStateRef h = None →
  handleIncomingMessage (player_join_request pid pname) fromPeerId h
  = (tt, h, []).
Proof.
  intros Hg. unfold handleIncomingMessage, mbind, M_bind, read. cbn.
  rewrite Hg. by destruct (decide (role h = host)).
Qed.

(** An accepted join: the requester's channel is registered. *)
Lemma join_request_accepted_eq h g conn (fromPeerId pid pname : string) :
  role h = host →
  gameStateRef h = Some g →
  (Z.of_nat (length (players g)) < playerCount g)%Z →
  connectionsRef h !! fromPeerId = Some conn →
  handleIncomingMessage (player_join_request pid pname) fromPeerId h
  = (tt, set_gameState (Some (joined_state g pid pname)) h,
     Send conn (welcome (joined_state g pid pname))
       :: broadcast_sends (connectionsRef h) (joined_state g pid pname)).
Proof.
  intros Hr Hg Hroom Hconn. rewrite (join_request_host h g) by done.
  destruct (Z.leb_spec (playerCount g) (Z.of_nat (length (players g))));
    [lia|].
  rewrite bind_eq, (send_to_Some _ _ _ conn) by done. cbn.
  by rewrite broadcastGameState_host.
Qed.

(** C1. A host below capacity that handles a join request arriving on the
    requester's registered channel gives the new player the id
    [players.length] and empty game fields, appends it to [players] and a
    join notice to [turnHistory], sends on that channel first a [welcome]
    carrying the new state, and adopts the new state: [setGameState] gets it
    and the next render stores it in [gameStateRef]. *)
Theorem join_request_accepted h g conn (fromPeerId pid pname : string) :
  role h = host →
  gameStateRef h = Some g →
  (Z.of_nat (length (players g)) < playerCount g)%Z →
  connectionsRef h !! fromPeerId = Some conn →
  ∃ newPlayer newState,
    newPlayer
      = mkPlayer (Z.of_nat (length (players g))) pid pname [] false false [] 0
    ∧ players newState = players g ++ [newPlayer]
    ∧ players newState !! length (players g) = Some newPlayer
    ∧ turnHistory newState = turnHistory g ++ [pname +:+ " has joined."]
    ∧ with_players_history newState (players g) (turnHistory g) = g
    ∧ output (handleIncomingMessage (player_join_request pid pname)
                fromPeerId) h
        = Send conn (welcome newState)
            :: broadcast_sends (connectionsRef h) newState
    ∧ exec (handleIncomingMessage (player_join_request pid pname)
              fromPeerId) h
        = set_gameState (Some newState) h
    ∧ gameStateRef
        (step h (EvData (player_join_request pid pname) fromPeerId))
        = Some newState.
Proof.
  intros Hr Hg Hroom Hconn.
  exists (joined_player g pid pname), (joined_state g pid pname).
  unfold step, dispatch, commit, exec, output.
  rewrite (join_request_accepted_eq h g conn) by done. cbn.
  split_and!; try done.
  - by rewrite lookup_app_r, Nat.sub_diag.
  - by destruct g.
Qed.

(** C2. A host at or over capacity answers a join request that arrives on
    the requester's registered channel with one [game_full] on that channel
    and nothing else; the whole hook state, [players] and [turnHistory]
    included, is as before. *)
Theorem join_request_rejected_when_full h g conn
    (fromPeerId pid pname : string) :
  role h = host →
  gameStateRef h = Some g →
  (playerCount g ≤ Z.of_nat (length (players g)))%Z →
  connectionsRef h !! fromPeerId = Some conn →
  output (handleIncomingMessage (player_join_request pid pname) fromPeerId) h
    = [Send conn game_full]
  ∧ exec (handleIncomingMessage (player_join_request pid pname) fromPeerId) h
    = h
  ∧ step h (EvData (player_join_request pid pname) fromPeerId) = commit h.
Proof.
  intros Hr Hg Hfull Hconn.
  unfold step, dispatch, exec, output.
  rewrite (join_request_host h g) by done.
  destruct (Z.leb_spec (playerCount g) (Z.of_nat (length (players g))));
    [|lia].
  by rewrite (send_to_Some _ _ _ conn).
Qed.

(** With no channel registered for the requester, [?.send] sends nothing;
    the state is left alone all the same. *)
Lemma join_request_rejected_unregistered h g (fromPeerId pid pname : string) :
  role h = host →
  gameStateRef h = Some g →
  (playerCount g ≤ Z.of_nat (length (players g)))%Z →
  connectionsRef h !! fromPeerId = None →
  handleIncomingMessage (player_join_request pid pname) fromPeerId h
  = (tt, h, []).
Proof.
  intros Hr Hg Hfull Hconn. rewrite (join_request_host h g) by done.
  destruct (Z.leb_spec (playerCount g) (Z.of_nat (length (players g))));
    [|lia].
  by rewrite send_to_None.
Qed.

Lemma state_update_peer h s (fromPeerId : string) :
  role h = peer →
  handleIncomingMessage (game_state_update s) fromPeerId h
  = (tt, set_gameState (Some s) h, []).
Proof.
  intros Hr. unfold handleIncomingMessage, mbind, M_bind, read. cbn.
  by rewrite decide_True by done.
Qed.

Lemma state_update_other h s (fromPeerId : string) :
  role h ≠ peer →
  handleIncomingMessage (game_state_update s) fromPeerId h = (tt, h, []).
Proof.
  intros Hr. unfold handleIncomingMessage, mbind, M_bind, read. cbn.
  by rewrite decide_False by done.
Qed.

Lemma welcome_any h s (fromPeerId : string) :
  handleIncomingMessage (welcome s) fromPeerId h
  = (tt, set_gameState (Some s) h, []).
Proof. reflexivity. Qed.

Lemma game_full_any h (fromPeerId : string) :
  handleIncomingMessage game_full fromPeerId h
  = (tt, set_role none h, [Toast "Game is full"]).
Proof. reflexivity. Qed.

(** C5. In peer role [game_state_update] with payload [s] leaves exactly
    [s] in the cached state, whatever was cached before, and handling the
    same envelope a second time changes nothing further. *)
Theorem state_update_replaces_idempotent h s (fromPeerId : string) :
  role h = peer →
  gameState (exec (handleIncomingMessage (game_state_update s) fromPeerId) h)
    = Some s
  ∧ exec (handleIncomingMessage (game_state_update s) fromPeerId)
      (exec (handleIncomingMessage (game_state_update s) fromPeerId) h)
    = exec (handleIncomingMessage (game_state_update s) fromPeerId) h
  ∧ step (step h (EvData (game_state_update s) fromPeerId))
      (EvData (game_state_update s) fromPeerId)
    = step h (EvData (game_state_update s) fromPeerId).
Proof.
  intros Hr. unfold step, dispatch, exec.
  rewrite !state_update_peer by done. cbn.
  rewrite ?state_update_peer by done. done.
Qed.

(** C10. Outside host role [broadcastGameState] sends nothing, raises no
    toast and returns the hook state it was given. *)
Theorem broadcast_is_noop_unless_host h s :
  role h ≠ host →
  output (broadcastGameState s) h = []
  ∧ exec (broadcastGameState s) h = h.
Proof.
  intros Hr. unfold exec, output. by rewrite broadcastGameState_other.
Qed.

(** C4, as the code has it. In peer role every [game_state_update] and
    every [welcome] replaces the cached state by its payload, whichever
    peer it is handled for: the sender is not consulted.  The other
    envelopes leave the cached state alone. *)
Theorem peer_replaces_state_for_any_sender h message (fromPeerId : string) :
  role h = peer →
  gameState (exec (handleIncomingMessage message fromPeerId) h)
  = match carried_state message with
    | Some payload => Some payload
    | None => gameState h
    end.
Proof.
  intros Hr. unfold exec, carried_state.
  destruct message as [s|pid pname| |s].
  - by rewrite state_update_peer.
  - by rewrite join_request_not_host by congruence.
  - done.
  - done.
Qed.

Lemma join_request_keeps_role h (fromPeerId pid pname : string) :
  role (exec (handleIncomingMessage (player_join_request pid pname)
                fromPeerId) h) = role h.
Proof.
  unfold exec. destruct (decide (role h = host)) as [Hr|Hr];
    [|by rewrite join_request_not_host].
  destruct (gameStateRef h) as [g|] eqn:Hg;
    [|by rewrite join_request_no_state].
  rewrite (join_request_host h g) by done.
  destruct (playerCount g <=? Z.of_nat (length (players g)))%Z.
  - destruct (connectionsRef h !! fromPeerId) as [conn|] eqn:Hc.
    + by rewrite (send_to_Some _ _ _ conn).
    + by rewrite send_to_None.
  - rewrite bind_eq.
    destruct (connectionsRef h !! fromPeerId) as [conn|] eqn:Hc.
    + rewrite (send_to_Some _ _ _ conn) by done. cbn.
      by rewrite broadcastGameState_host.
    + rewrite send_to_None by done. cbn.
      by rewrite broadcastGameState_host.
Qed.

(** C9, as the code has it. Handling [game_state_update],
    [player_join_request] or [welcome] leaves the role as it was, in every
    role; handling [game_full] in peer role sets the role to [none].
    Nothing is said of [game_full] in the other roles. *)
Theorem role_after_message h message (fromPeerId : string) :
  (message = game_full → role h = peer) →
  role (exec (handleIncomingMessage message fromPeerId) h)
  = match message with
    | game_full => none
    | _ => role h
    end.
Proof.
  intros _. destruct message as [s|pid pname| |s].
  - unfold exec. destruct (decide (role h = peer)).
    + by rewrite state_update_peer.
    + by rewrite state_update_other.
  - apply join_request_keeps_role.
  - done.
  - done.
Qed.

Lemma filter_all {A} (P : A → Prop) `{!∀ x, Decision (P x)} (l : list A) :
  Forall P l → filter P l = l.
Proof.
  induction 1 as [|a l Ha Hl IH]; [done|].
  rewrite filter_cons. rewrite decide_True by done. by f_equal.
Qed.

Lemma elem_of_broadcast_sends (conns : gmap string DataConnection) s
    (e : Effect Card Rules) :
  e ∈ broadcast_sends conns s
  ↔ ∃ c, e = Send c (game_state_update s)
         ∧ conn_open c = true
         ∧ ∃ k : string, conns !! k = Some c.
Proof.
  unfold broadcast_sends. rewrite list_elem_of_fmap. split.
  - intros (c & -> & Hc). apply list_elem_of_filter in Hc as [Hopen Hc].
    apply list_elem_of_fmap in Hc as ([k c'] & -> & Hkc).
    apply elem_of_map_to_list in Hkc. exists c'. eauto.
  - intros (c & -> & Hopen & k & Hk). exists c. split; [done|].
    apply list_elem_of_filter. split; [done|].
    apply list_elem_of_fmap. exists (k, c). split; [done|].
    by apply elem_of_map_to_list.
Qed.

Lemma length_broadcast_sends_le (conns : gmap string DataConnection) s :
  length (broadcast_sends conns s) ≤ size conns.
Proof.
  unfold broadcast_sends. rewrite length_fmap.
  etrans; [apply length_filter|].
  by rewrite length_fmap, length_map_to_list.
Qed.

Lemma length_broadcast_sends_all_open (conns : gmap string DataConnection) s :
  (∀ (k : string) c, conns !! k = Some c → conn_open c = true) →
  length (broadcast_sends conns s) = size conns.
Proof.
  intros Hopen. unfold broadcast_sends. rewrite length_fmap.
  rewrite filter_all; [by rewrite length_fmap, length_map_to_list|].
  apply Forall_forall. intros c ([k c'] & -> & Hkc)%list_elem_of_fmap.
  apply elem_of_map_to_list in Hkc. by eapply Hopen.
Qed.

Lemma filter_shorter_iff {A} (P : A → Prop) `{!∀ x, Decision (P x)}
    (l : list A) :
  (length (filter P l) <? length l)%nat = true ↔ ∃ x, x ∈ l ∧ ¬ P x.
Proof.
  rewrite Nat.ltb_lt. split.
  - induction l as [|a l IH]; [cbn; lia|].
    rewrite filter_cons. destruct (decide (P a)) as [Ha|Ha].
    + cbn. intros Hlt. destruct IH as (x & Hx & Hnx); [lia|].
      exists x. split; [by right | done].
    + intros _. exists a. split; [by left | done].
  - intros (x & Hx & Hnx). by eapply length_filter_lt.
Qed.

Lemma handleClose_host h g conn :
  role h = host →
  gameStateRef h = Some g →
  handleClose conn h
  = if (length (filter (λ p, peerId p ≠ conn_peer conn) (players g))
          <? length (players g))%nat
    then (tt,
          set_connections (delete (conn_peer conn) (connectionsRef h))
            (set_gameState (Some (left_state g (conn_peer conn))) h),
          broadcast_sends (connectionsRef h) (left_state g (conn_peer conn)))
    else (tt, set_connections (delete (conn_peer conn) (connectionsRef h)) h,
          []).
Proof.
  intros Hr Hg. unfold handleClose, mbind at 1 2 3, M_bind, read, modify. cbn.
  destruct (decide (role h = host)); [|done]. rewrite Hg.
  destruct (_ <? length (players g))%nat; [|done].
  fold (left_state g (conn_peer conn)).
  rewrite broadcastGameState_host by done. cbn. by rewrite app_nil_r.
Qed.

Lemma handleClose_idle h conn :
  role h ≠ host ∨ gameStateRef h = None →
  handleClose conn h
  = (tt, set_connections (delete (conn_peer conn) (connectionsRef h)) h, []).
Proof.
  intros Hidle. unfold handleClose, mbind, M_bind, read, modify. cbn.
  destruct (decide (role h = host)) as [Hr|Hr]; [|done].
  destruct (gameStateRef h) as [g|]; [|done].
  by destruct Hidle.
Qed.

(** C8. On the host, when the channel of [conn.peer] closes: if some
    player carries that peer id, every such player is removed (the others
    keep their order), a disconnect notice is appended to [turnHistory], the
    rest of the state is kept, and the result is broadcast and adopted: a
    [game_state_update] carrying it goes out on exactly the registered
    connections that are open, one per connection when all are open, and
    nothing else is sent; if no player carries the peer id, nothing is sent
    and [gameState] and [gameStateRef] are as before. *)
Theorem channel_close_on_host h g conn :
  role h = host →
  gameStateRef h = Some g →
  ((∃ p, p ∈ players g ∧ peerId p = conn_peer conn) →
     ∃ newState,
       players newState
         = filter (λ p, peerId p ≠ conn_peer conn) (players g)
       ∧ (∀ p, p ∈ players newState
               ↔ p ∈ players g ∧ peerId p ≠ conn_peer conn)
       ∧ turnHistory newState
           = turnHistory g ++ ["A player has disconnected."]
       ∧ with_players_history newState (players g) (turnHistory g) = g
       ∧ output (handleClose conn) h = broadcast_sends (connectionsRef h) newState
       ∧ (∀ e, e ∈ output (handleClose conn) h
               ↔ ∃ c, e = Send c (game_state_update newState)
                      ∧ conn_open c = true
                      ∧ ∃ k : string, connectionsRef h !! k = Some c)
       ∧ length (output (handleClose conn) h) ≤ size (connectionsRef h)
       ∧ ((∀ (k : string) c,
             connectionsRef h !! k = Some c → conn_open c = true) →
          length (output (handleClose conn) h) = size (connectionsRef h))
       ∧ gameState (exec (handleClose conn) h) = Some newState
       ∧ gameStateRef (step h (EvClose conn)) = Some newState)
  ∧ ((∀ p, p ∈ players g → peerId p ≠ conn_peer conn) →
       output (handleClose conn) h = []
       ∧ gameState (exec (handleClose conn) h) = gameState h
       ∧ gameStateRef (exec (handleClose conn) h) = Some g
       ∧ exec (handleClose conn) h
           = set_connections (delete (conn_peer conn) (connectionsRef h)) h).
Proof.
  intros Hr Hg.
  unfold step, dispatch, commit, exec, output.
  rewrite (handleClose_host h g) by done.
  destruct (_ <? length (players g))%nat eqn:Hlen.
  - split.
    + intros _. exists (left_state g (conn_peer conn)). cbn.
      split_and!; try done.
      * intros p. rewrite list_elem_of_filter. tauto.
      * by destruct g.
      * intros e. apply elem_of_broadcast_sends.
      * apply length_broadcast_sends_le.
      * apply length_broadcast_sends_all_open.
    + intros Hnone. apply filter_shorter_iff in Hlen as (p & Hp & Hnp).
      destruct Hnp. by apply Hnone.
  - split.
    + intros (p & Hp & Heq).
      assert ((length (filter (λ p, peerId p ≠ conn_peer conn) (players g))
                 <? length (players g))%nat = true) as Hlt.
      { apply filter_shorter_iff. exists p. split; [done|]. by intros []. }
      congruence.
    + intros _. cbn. by rewrite Hg.
Qed.

Lemma send_to_exec h (k : string) message : exec (send_to k message) h = h.
Proof.
  unfold exec. destruct (connectionsRef h !! k) as [conn|] eqn:Hk.
  - by rewrite (send_to_Some _ _ _ conn).
  - by rewrite send_to_None.
Qed.

(** The state a host with a game leaves after a join request, whether or
    not the requester's channel is registered. *)
Lemma join_request_exec h g (fromPeerId pid pname : string) :
  role h = host →
  gameStateRef h = Some g →
  exec (handleIncomingMessage (player_join_request pid pname) fromPeerId) h
  = if (playerCount g <=? Z.of_nat (length (players g)))%Z then h
    else set_gameState (Some (joined_state g pid pname)) h.
Proof.
  intros Hr Hg. unfold exec at 1. rewrite (join_request_host h g) by done.
  destruct (playerCount g <=? Z.of_nat (length (players g)))%Z.
  - apply send_to_exec.
  - rewrite bind_eq. cbn. fold (exec (send_to fromPeerId
      (welcome (joined_state g pid pname))) h).
    rewrite send_to_exec. by rewrite broadcastGameState_host.
Qed.

Lemma joined_state_within_capacity g (pid pname : string) :
  (Z.of_nat (length (players g)) < playerCount g)%Z →
  within_capacity (Some (joined_state g pid pname)).
Proof. cbn. rewrite length_app. cbn. lia. Qed.

Lemma left_state_within_capacity g (closedPeer : string) :
  within_capacity (Some g) → within_capacity (Some (left_state g closedPeer)).
Proof.
  cbn. intros Hg.
  pose proof (length_filter (λ p, peerId p ≠ closedPeer) (players g)). lia.
Qed.

Lemma handler_keeps_host_invariant h ev :
  host_event ev = true →
  host_invariant h →
  host_invariant (exec (dispatch ev) h)
  ∧ gameStateRef (exec (dispatch ev) h) = gameStateRef h.
Proof.
  intros Hev (Hr & Hgs & Href). unfold host_invariant.
  destruct ev as [[s|pid pname| |s] fromPeerId|conn|conn]; try done;
    unfold dispatch.
  - destruct (gameStateRef h) as [g|] eqn:Hg.
    + rewrite (join_request_exec h g) by done.
      destruct (Z.leb_spec (playerCount g) (Z.of_nat (length (players g)))).
      * by rewrite Hg.
      * cbn. rewrite Hg. split_and!; try done.
        by apply joined_state_within_capacity.
    + unfold exec. rewrite join_request_no_state by done. cbn.
      by rewrite Hg.
  - unfold exec. destruct (gameStateRef h) as [g|] eqn:Hg.
    + rewrite (handleClose_host h g) by done.
      destruct (_ <? length (players g))%nat; cbn; rewrite Hg.
      * split_and!; try done. by apply (left_state_within_capacity g).
      * done.
    + rewrite handleClose_idle by auto. cbn. by rewrite Hg.
Qed.

Lemma step_keeps_host_invariant h ev :
  host_event ev = true → host_invariant h → host_invariant (step h ev).
Proof.
  intros Hev Hinv.
  destruct (handler_keeps_host_invariant h ev Hev Hinv)
    as ((Hr & Hgs & Href) & _).
  unfold step, commit. by split_and!.
Qed.

Lemma run_keeps_host_invariant h evs :
  Forall (λ ev, host_event ev = true) evs →
  host_invariant h → host_invariant (run h evs).
Proof.
  unfold run. revert h.
  induction evs as [|ev evs IH]; intros h Hevs Hinv; [done|].
  apply Forall_cons in Hevs as [Hev Hevs]. cbn.
  apply IH; [done|]. by apply step_keeps_host_invariant.
Qed.

(** While nobody leaves, ids stay the positions in [players], hence
    distinct. *)
Lemma joined_state_ids_indexed g (pid pname : string) :
  ids_indexed g → ids_indexed (joined_state g pid pname).
Proof.
  unfold ids_indexed. cbn. intros Hg.
  rewrite fmap_app, length_app, Hg. cbn.
  by rewrite Nat.add_1_r, seq_S, fmap_app.
Qed.

Lemma ids_indexed_NoDup g : ids_indexed g → NoDup (id <$> players g).
Proof.
  unfold ids_indexed. intros ->.
  apply NoDup_fmap; [apply _ | apply NoDup_seq].
Qed.

(** C7. A host whose [players] fit [playerCount] keeps it so: along any
    sequence of join requests, channel closes and incoming connections,
    after every step the process is still host and [players.length] is at
    most [playerCount], in [gameState] and in [gameStateRef]. *)
Theorem capacity_never_exceeded h evs (n : nat) :
  role h = host →
  within_capacity (gameState h) →
  within_capacity (gameStateRef h) →
  Forall (λ ev, host_event ev = true) evs →
  role (run h (take n evs)) = host
  ∧ within_capacity (gameState (run h (take n evs)))
  ∧ within_capacity (gameStateRef (run h (take n evs))).
Proof.
  intros Hr Hgs Href Hevs.
  apply (run_keeps_host_invariant h (take n evs)).
  - by apply Forall_take.
  - done.
Qed.

(** Where the update of an accepted join goes: on exactly the registered
    channels that are open, the joiner's own channel among them, so that
    the channel that got the [welcome] gets the update of the same join
    too. *)
Theorem join_update_reaches_every_open_channel h g conn
    (fromPeerId pid pname : string) :
  role h = host →
  gameStateRef h = Some g →
  (Z.of_nat (length (players g)) < playerCount g)%Z →
  connectionsRef h !! fromPeerId = Some conn →
  conn_open conn = true →
  (∀ c, Send c (game_state_update (joined_state g pid pname))
          ∈ output (handleIncomingMessage (player_join_request pid pname)
                      fromPeerId) h
        ↔ conn_open c = true ∧ ∃ k : string, connectionsRef h !! k = Some c)
  ∧ Send conn (welcome (joined_state g pid pname))
      ∈ output (handleIncomingMessage (player_join_request pid pname)
                  fromPeerId) h
  ∧ Send conn (game_state_update (joined_state g pid pname))
      ∈ output (handleIncomingMessage (player_join_request pid pname)
                  fromPeerId) h.
Proof.
  intros Hr Hg Hroom Hconn Hopen. unfold output.
  rewrite (join_request_accepted_eq h g conn) by done. cbn.
  assert (∀ c, Send c (game_state_update (joined_state g pid pname))
                 ∈ broadcast_sends (connectionsRef h)
                     (joined_state g pid pname)
               ↔ conn_open c = true
                 ∧ ∃ k : string, connectionsRef h !! k = Some c) as Hsends.
  { intros c. rewrite elem_of_broadcast_sends. split.
    - intros (c' & [= <-] & Hc). done.
    - intros Hc. by exists c. }
  split_and!.
  - intros c. rewrite elem_of_cons, Hsends. split; [|auto].
    by intros [[=]|Hc].
  - by left.
  - right. apply Hsends. eauto.
Qed.

End Properties.

(** ** The scenarios, run *)

(** The scenario of the spec: a room for four takes Alice, Bob, Cara and
    Dan with ids 0 to 3 and turns Eve away. *)
Example four_seats_then_full :
  player_ids (gameState (run (hosting room0 ∅)
    [EvConnection (chan "pA"); EvData (player_join_request "pA" "Alice") "pA";
     EvConnection (chan "pB"); EvData (player_join_request "pB" "Bob") "pB";
     EvConnection (chan "pC"); EvData (player_join_request "pC" "Cara") "pC";
     EvConnection (chan "pD"); EvData (player_join_request "pD" "Dan") "pD";
     EvConnection (chan "pE"); EvData (player_join_request "pE" "Eve") "pE"]))
  = [0; 1; 2; 3]%Z.
Proof. vm_compute. reflexivity. Qed.

(** C3. In [lobby] the host handles Alice's join request: her channel
    gets the [welcome] and then the [game_state_update] of her own join,
    though the handler announces the broadcast as notifying all other
    players. *)
Lemma joiner_receives_welcome_and_update :
  output (handleIncomingMessage (player_join_request "pA" "Alice") "pA") lobby
    = [Send (chan "pA") (welcome (joined_state room0 "pA" "Alice"));
       Send (chan "pA")
         (game_state_update (joined_state room0 "pA" "Alice"))]
  ∧ ¬ welcomed_not_updated (player_join_request "pA" "Alice") "pA" lobby.
Proof.
  assert (output (handleIncomingMessage (player_join_request "pA" "Alice")
                    "pA") lobby
          = [Send (chan "pA") (welcome (joined_state room0 "pA" "Alice"));
             Send (chan "pA")
               (game_state_update (joined_state room0 "pA" "Alice"))])
    as Hout by (vm_compute; reflexivity).
  split; [exact Hout|]. intros Hnot.
  apply (Hnot (chan "pA") (joined_state room0 "pA" "Alice"));
    rewrite Hout.
  - by left.
  - right. by left.
Qed.

(** C6. After Alice and Bob join, Alice's channel closes and Cara joins,
    Bob and Cara both carry id 1. *)
Theorem ids_collide_after_leave_and_join :
  player_ids (gameState (run (hosting room0 ∅) churn)) = [1%Z; 1%Z]
  ∧ ¬ NoDup (player_ids (gameState (run (hosting room0 ∅) churn))).
Proof.
  assert (player_ids (gameState (run (hosting room0 ∅) churn))
          = [1%Z; 1%Z]) as Hids by (vm_compute; reflexivity).
  split; [done|]. rewrite Hids. intros Hnd.
  apply NoDup_cons in Hnd as [Hnotin _]. apply Hnotin. by left.
Qed.

(** C4 fails as stated: the replica bound to ["host-id"] takes a state
    from ["mallory"]. *)
Lemma replica_takes_state_from_stranger :
  role replica = peer ∧ ¬ accepts_state_only_from "host-id" replica.
Proof.
  split; [reflexivity|]. intros Honly.
  specialize (Honly (game_state_update forged_room) "mallory").
  assert (gameState (exec (handleIncomingMessage
            (game_state_update forged_room) "mallory") replica)
          = Some forged_room) as Hnow by (vm_compute; reflexivity).
  rewrite Hnow in Honly. discriminate Honly; [done | by eexists].
Qed.

(** C9 fails as stated: [game_full] takes the replica out of peer role. *)
Lemma game_full_changes_role :
  role replica = peer ∧ ¬ role_ignores_messages replica.
Proof.
  split; [reflexivity|]. intros Hsame.
  specialize (Hsame game_full "host-id"). discriminate Hsame.
Qed.

(** *** The theorems at concrete inputs *)

Lemma join_request_accepted_witness :
  role lobby = host
  ∧ gameStateRef lobby = Some room0
  ∧ (Z.of_nat (length (players room0)) < playerCount room0)%Z
  ∧ connectionsRef lobby !! "pA" = Some (chan "pA")
  ∧ ∃ newPlayer newState,
      newPlayer = seat 0 "pA" "Alice"
      ∧ players newState = [newPlayer]
      ∧ players newState !! 0%nat = Some newPlayer
      ∧ turnHistory newState = ["Alice has joined."]
      ∧ with_players_history newState [] [] = room0
      ∧ output (handleIncomingMessage (player_join_request "pA" "Alice")
                  "pA") lobby
          = Send (chan "pA") (welcome newState)
              :: broadcast_sends (connectionsRef lobby) newState
      ∧ exec (handleIncomingMessage (player_join_request "pA" "Alice")
                "pA") lobby
          = set_gameState (Some newState) lobby
      ∧ gameStateRef
          (step lobby (EvData (player_join_request "pA" "Alice") "pA"))
          = Some newState.
Proof.
  split; [reflexivity|]. split; [reflexivity|]. split; [reflexivity|].
  split; [vm_compute; reflexivity|].
  apply (join_request_accepted lobby room0 (chan "pA") "pA" "pA" "Alice").
  - reflexivity.
  - reflexivity.
  - reflexivity.
  - vm_compute; reflexivity.
Defined.

Lemma join_request_rejected_when_full_witness :
  role full_house = host
  ∧ gameStateRef full_house = Some full_room
  ∧ (playerCount full_room ≤ Z.of_nat (length (players full_room)))%Z
  ∧ connectionsRef full_house !! "pB" = Some (chan "pB")
  ∧ output (handleIncomingMessage (player_join_request "pB" "Bob") "pB")
      full_house
    = [Send (chan "pB") game_full]
  ∧ exec (handleIncomingMessage (player_join_request "pB" "Bob") "pB")
      full_house
    = full_house
  ∧ step full_house (EvData (player_join_request "pB" "Bob") "pB")
    = commit full_house.
Proof.
  split; [reflexivity|]. split; [reflexivity|].
  split; [cbn; lia|].
  split; [vm_compute; reflexivity|].
  apply (join_request_rejected_when_full full_house full_room (chan "pB")
           "pB" "pB" "Bob").
  - reflexivity.
  - reflexivity.
  - cbn; lia.
  - vm_compute; reflexivity.
Defined.

Lemma join_update_reaches_every_open_channel_witness :
  role lobby = host
  ∧ gameStateRef lobby = Some room0
  ∧ (Z.of_nat (length (players room0)) < playerCount room0)%Z
  ∧ connectionsRef lobby !! "pA" = Some (chan "pA")
  ∧ conn_open (chan "pA") = true
  ∧ (∀ c, Send c (game_state_update (joined_state room0 "pA" "Alice"))
            ∈ output (handleIncomingMessage
                        (player_join_request "pA" "Alice") "pA") lobby
          ↔ conn_open c = true
            ∧ ∃ k : string, connectionsRef lobby !! k = Some c)
  ∧ Send (chan "pA") (welcome (joined_state room0 "pA" "Alice"))
      ∈ output (handleIncomingMessage (player_join_request "pA" "Alice")
                  "pA") lobby
  ∧ Send (chan "pA") (game_state_update (joined_state room0 "pA" "Alice"))
      ∈ output (handleIncomingMessage (player_join_request "pA" "Alice")
                  "pA") lobby.
Proof.
  split; [reflexivity|]. split; [reflexivity|]. split; [reflexivity|].
  split; [vm_compute; reflexivity|]. split; [reflexivity|].
  apply (join_update_reaches_every_open_channel lobby room0 (chan "pA")
           "pA" "pA" "Alice").
  - reflexivity.
  - reflexivity.
  - reflexivity.
  - vm_compute; reflexivity.
  - reflexivity.
Defined.

Lemma peer_replaces_state_for_any_sender_witness :
  role replica = peer
  ∧ gameState (exec (handleIncomingMessage (welcome forged_room) "mallory")
                 replica)
    = Some forged_room.
Proof.
  split; [reflexivity|].
  apply (peer_replaces_state_for_any_sender replica (welcome forged_room)
           "mallory").
  reflexivity.
Defined.

Lemma state_update_replaces_idempotent_witness :
  role replica = peer
  ∧ gameState (exec (handleIncomingMessage (game_state_update duo_room)
                       "host-id") replica)
    = Some duo_room
  ∧ exec (handleIncomingMessage (game_state_update duo_room) "host-id")
      (exec (handleIncomingMessage (game_state_update duo_room) "host-id")
         replica)
    = exec (handleIncomingMessage (game_state_update duo_room) "host-id")
        replica
  ∧ step (step replica (EvData (game_state_update duo_room) "host-id"))
      (EvData (game_state_update duo_room) "host-id")
    = step replica (EvData (game_state_update duo_room) "host-id").
Proof.
  split; [reflexivity|].
  apply (state_update_replaces_idempotent replica duo_room "host-id").
  reflexivity.
Defined.

Lemma capacity_never_exceeded_witness :
  role (hosting room0 ∅) = host
  ∧ within_capacity (gameState (hosting room0 ∅))
  ∧ within_capacity (gameStateRef (hosting room0 ∅))
  ∧ Forall (λ ev, host_event ev = true) churn
  ∧ role (run (hosting room0 ∅) (take 7 churn)) = host
  ∧ within_capacity (gameState (run (hosting room0 ∅) (take 7 churn)))
  ∧ within_capacity (gameStateRef (run (hosting room0 ∅) (take 7 churn))).
Proof.
  assert (Forall (λ ev : Event unit unit, host_event ev = true) churn)
    as Hevs by (repeat constructor).
  split; [reflexivity|]. split; [cbn; lia|].
  split; [cbn; lia|]. split; [exact Hevs|].
  apply (capacity_never_exceeded (hosting room0 ∅) churn 7).
  - reflexivity.
  - cbn; lia.
  - cbn; lia.
  - exact Hevs.
Defined.

Lemma channel_close_on_host_witness :
  role duo_host = host
  ∧ gameStateRef duo_host = Some duo_room
  ∧ ((∃ p, p ∈ players duo_room ∧ peerId p = "pB") →
       ∃ newState,
         players newState = filter (λ p, peerId p ≠ "pB") (players duo_room)
         ∧ (∀ p, p ∈ players newState
                 ↔ p ∈ players duo_room ∧ peerId p ≠ "pB")
         ∧ turnHistory newState
             = turnHistory duo_room ++ ["A player has disconnected."]
         ∧ with_players_history newState (players duo_room)
             (turnHistory duo_room) = duo_room
         ∧ output (handleClose (mkConn "pB" false)) duo_host
             = broadcast_sends (connectionsRef duo_host) newState
         ∧ (∀ e, e ∈ output (handleClose (mkConn "pB" false)) duo_host
                 ↔ ∃ c, e = Send c (game_state_update newState)
                        ∧ conn_open c = true
                        ∧ ∃ k : string, connectionsRef duo_host !! k = Some c)
         ∧ length (output (handleClose (mkConn "pB" false)) duo_host)
           ≤ size (connectionsRef duo_host)
         ∧ ((∀ (k : string) c,
               connectionsRef duo_host !! k = Some c → conn_open c = true) →
            length (output (handleClose (mkConn "pB" false)) duo_host)
            = size (connectionsRef duo_host))
         ∧ gameState (exec (handleClose (mkConn "pB" false)) duo_host)
             = Some newState
         ∧ gameStateRef (step duo_host (EvClose (mkConn "pB" false)))
             = Some newState)
  ∧ ((∀ p, p ∈ players duo_room → peerId p ≠ "pB") →
       output (handleClose (mkConn "pB" false)) duo_host = []
       ∧ gameState (exec (handleClose (mkConn "pB" false)) duo_host)
           = gameState duo_host
       ∧ gameStateRef (exec (handleClose (mkConn "pB" false)) duo_host)
           = Some duo_room
       ∧ exec (handleClose (mkConn "pB" false)) duo_host
           = set_connections (delete "pB" (connectionsRef duo_host))
               duo_host).
Proof.
  split; [reflexivity|]. split; [reflexivity|].
  apply (channel_close_on_host duo_host duo_room (mkConn "pB" false)).
  - reflexivity.
  - reflexivity.
Defined.

Lemma role_after_message_witness :
  (@game_full unit unit = game_full → role replica = peer)
  ∧ role (exec (handleIncomingMessage game_full "host-id") replica) = none.
Proof.
  split; [intros _; reflexivity|].
  apply (role_after_message replica game_full "host-id").
  intros _. reflexivity.
Defined.

Lemma broadcast_is_noop_unless_host_witness :
  role replica ≠ host
  ∧ output (broadcastGameState duo_room) replica = []
  ∧ exec (broadcastGameState duo_room) replica = replica.
Proof.
  split; [discriminate|].
  apply (broadcast_is_noop_unless_host replica duo_room). discriminate.
Defined.

(** ** Further properties of the hook *)

Section Further.

Context {Card Rules : Type}.
Implicit Types (h : Hook Card Rules) (g s : GameState Card Rules).
Implicit Types (message : Message Card Rules) (conn : DataConnection).
Implicit Types (ev : Event Card Rules).

#[local] Arguments Nat.ltb : simpl never.
#[local] Arguments Z.leb : simpl never.

(** *** Hosting and joining *)

Lemma hostGame_eq h (roomCode : string) s :
  hostGame roomCode s h
  = if decide (myPeerId h = "") then (tt, h, [Toast "Error"])
    else (tt,
          set_gameState (Some (with_room s roomCode (myPeerId h)))
            (set_role host h), []).
Proof.
  unfold hostGame, mbind, M_bind, read. cbn.
  by destruct (decide (myPeerId h = "")).
Qed.

(** X1. Without a peer id [hostGame] raises the "Error" toast and leaves
    the hook as it was: no role, no state, nothing sent. *)
Theorem hostGame_needs_peer_id h (roomCode : string) s :
  myPeerId h = "" →
  output (hostGame roomCode s) h = [Toast "Error"]
  ∧ exec (hostGame roomCode s) h = h.
Proof.
  intros Hid. unfold output, exec. rewrite hostGame_eq.
  by rewrite decide_True by done.
Qed.

(** X2. With a peer id [hostGame] sends nothing and makes the process
    host of the given state stamped with the room code and its own peer id,
    the other fields kept; when the given players fit the capacity, the
    render that follows leaves the hook synced and within the host's
    invariant. *)
Theorem hostGame_makes_host h (roomCode : string) s :
  myPeerId h ≠ "" →
  within_capacity (Some s) →
  ∃ g,
    output (hostGame roomCode s) h = []
    ∧ exec (hostGame roomCode s) h
      = set_gameState (Some g) (set_role host h)
    ∧ room_id g = roomCode
    ∧ hostPeerId g = myPeerId h
    ∧ with_room g (room_id s) (hostPeerId s) = s
    ∧ synced (commit (exec (hostGame roomCode s) h)) g
    ∧ host_invariant (commit (exec (hostGame roomCode s) h)).
Proof.
  intros Hid Hcap. exists (with_room s roomCode (myPeerId h)).
  unfold output, exec. rewrite hostGame_eq.
  rewrite decide_False by done. cbn.
  split_and!; try done. by destruct s.
Qed.

Lemma joinGame_eq h (target : string) :
  joinGame target h
  = if negb (peerRef h) || bool_decide (myPeerId h = "")
    then (tt, h, [Toast "Connection not ready"])
    else (tt, set_role peer h, []).
Proof.
  unfold joinGame, mbind, M_bind, read. cbn.
  by destruct (negb (peerRef h) || bool_decide (myPeerId h = "")).
Qed.

(** X3. Without a PeerJS peer or without a peer id [joinGame] raises the
    "Connection not ready" toast and changes nothing; the role stays. *)
Theorem joinGame_not_ready h (target : string) :
  peerRef h = false ∨ myPeerId h = "" →
  output (joinGame target) h = [Toast "Connection not ready"]
  ∧ exec (joinGame target) h = h.
Proof.
  intros Hnot. unfold output, exec. rewrite joinGame_eq.
  destruct Hnot as [->| ->]; [done|].
  by rewrite bool_decide_eq_true_2, orb_true_r.
Qed.

(** X4. A ready process that calls [joinGame] and then sees the new
    connection open is in peer role, has the connection registered under the
    host's id, and has sent exactly one message: the join request with its
    own peer id and player name, on that connection.  The cached state is
    untouched. *)
Theorem joinGame_then_open h (target pname : string) conn :
  peerRef h = true →
  myPeerId h ≠ "" →
  output (joinGame target) h = []
  ∧ output (handleJoinOpen pname conn target) (exec (joinGame target) h)
    = [Send conn (player_join_request (myPeerId h) pname)]
  ∧ exec (handleJoinOpen pname conn target) (exec (joinGame target) h)
    = set_connections (<[target := conn]> (connectionsRef h))
        (set_role peer h).
Proof.
  intros Hready Hid. unfold output, exec. rewrite joinGame_eq, Hready.
  by rewrite bool_decide_eq_false_2.
Qed.

(** X5. A join request handled outside host role, or before there is a
    game, is dropped: nothing is sent, not even [game_full], and the hook
    is unchanged. *)
Theorem join_request_dropped h (fromPeerId pid pname : string) :
  role h ≠ host ∨ gameStateRef h = None →
  output (handleIncomingMessage (player_join_request pid pname) fromPeerId) h
    = []
  ∧ exec (handleIncomingMessage (player_join_request pid pname) fromPeerId) h
    = h.
Proof.
  intros [Hr|Hg]; unfold output, exec.
  - by rewrite join_request_not_host.
  - by rewrite join_request_no_state.
Qed.

(** X6. A [game_state_update] handled outside peer role is dropped: a host
    keeps its own state whatever the payload. *)
Theorem state_update_dropped h s (fromPeerId : string) :
  role h ≠ peer →
  output (handleIncomingMessage (game_state_update s) fromPeerId) h = []
  ∧ exec (handleIncomingMessage (game_state_update s) fromPeerId) h = h.
Proof.
  intros Hr. unfold output, exec. by rewrite state_update_other.
Qed.

(** *** Runs of events *)

Lemma run_snoc h (evs : list (Event Card Rules)) ev :
  run h (evs ++ [ev]) = step (run h evs) ev.
Proof. unfold run. by rewrite foldl_app. Qed.

Lemma commit_synced h g : synced h g → commit h = h.
Proof. intros [Hgs Href]. destruct h. cbn in *. by subst. Qed.

(** A synced host after one hosting event: still host, synced on
    [host_next]. *)
Lemma host_step_synced h g ev :
  host_event ev = true →
  role h = host →
  synced h g →
  role (step h ev) = host ∧ synced (step h ev) (host_next g ev).
Proof.
  intros Hev Hr Hs. pose proof Hs as [Hgs Href].
  destruct ev as [[s|pid pname| |s] fromPeerId|conn|conn]; try done;
    unfold step, dispatch, host_next.
  - rewrite (join_request_exec h g) by done.
    destruct (playerCount g <=? Z.of_nat (length (players g)))%Z.
    + by rewrite (commit_synced h g).
    + done.
  - unfold exec. rewrite (handleClose_host h g) by done.
    destruct (_ <? length (players g))%nat; unfold synced; cbn; [done|].
    by rewrite Hgs.
Qed.

Lemma host_run_synced h g (evs : list (Event Card Rules)) :
  Forall (λ ev, host_event ev = true) evs →
  role h = host →
  synced h g →
  role (run h evs) = host ∧ synced (run h evs) (foldl host_next g evs).
Proof.
  unfold run. revert h g.
  induction evs as [|ev evs IH]; intros h g Hevs Hr Hs; [done|].
  apply Forall_cons in Hevs as [Hev Hevs]. cbn.
  destruct (host_step_synced h g ev Hev Hr Hs) as [Hr' Hs'].
  by apply IH.
Qed.

Lemma same_room_refl g : same_room g g.
Proof. by unfold same_room. Qed.

Lemma same_room_trans g1 g2 g3 :
  same_room g1 g2 → same_room g2 g3 → same_room g1 g3.
Proof.
  unfold same_room. intros (? & ? & ? & ? & ?) (? & ? & ? & ? & ?).
  split_and!; try congruence. by etrans.
Qed.

Lemma host_next_same_room g ev : same_room g (host_next g ev).
Proof.
  destruct ev as [[s|pid pname| |s] fromPeerId|conn|conn]; cbn;
    try apply same_room_refl.
  - destruct (playerCount g <=? Z.of_nat (length (players g)))%Z;
      [apply same_room_refl|].
    unfold same_room. cbn. split_and!; try done. by apply prefix_app_r.
  - destruct (_ <? length (players g))%nat; [|apply same_room_refl].
    unfold same_room. cbn. split_and!; try done. by apply prefix_app_r.
Qed.

(** X7. Along any run of join requests, closes and incoming connections
    a synced host stays host and synced, and its state keeps the room code,
    the host's peer id, the capacity and the rule fields, while
    [turnHistory] only grows: the old history is a prefix of the new. *)
Theorem host_run_same_room h g (evs : list (Event Card Rules)) :
  role h = host →
  synced h g →
  Forall (λ ev, host_event ev = true) evs →
  ∃ g',
    role (run h evs) = host
    ∧ synced (run h evs) g'
    ∧ room_id g' = room_id g
    ∧ hostPeerId g' = hostPeerId g
    ∧ playerCount g' = playerCount g
    ∧ rules g' = rules g
    ∧ turnHistory g `prefix_of` turnHistory g'.
Proof.
  intros Hr Hs Hevs. exists (foldl host_next g evs).
  destruct (host_run_synced h g evs Hevs Hr Hs) as [Hr' Hs'].
  split; [done|]. split; [done|].
  clear. revert g. induction evs as [|ev evs IH]; intros g; cbn.
  - apply same_room_refl.
  - eapply same_room_trans; [apply host_next_same_room | apply IH].
Qed.

Lemma seating_is_host_event ev : seating_event ev = true → host_event ev = true.
Proof. by destruct ev as [[]| |]. Qed.

Lemma join_is_host_event ev : join_event ev = true → host_event ev = true.
Proof. by destruct ev as [[]| |]. Qed.

Lemma host_next_ids_indexed g ev :
  seating_event ev = true → ids_indexed g → ids_indexed (host_next g ev).
Proof.
  destruct ev as [[s|pid pname| |s] fromPeerId|conn|conn]; try done; cbn.
  intros _ Hg.
  destruct (playerCount g <=? Z.of_nat (length (players g)))%Z; [done|].
  by apply joined_state_ids_indexed.
Qed.

(** X8. While no channel closes, ids are seat numbers: along any run of
    join requests and incoming connections, a synced host whose players
    carry their positions as ids ends with players that carry their
    positions as ids, so the ids are pairwise distinct. *)
Theorem seating_keeps_ids_indexed h g (evs : list (Event Card Rules)) :
  role h = host →
  synced h g →
  id <$> players g = Z.of_nat <$> seq 0 (length (players g)) →
  Forall (λ ev, seating_event ev = true) evs →
  ∃ g',
    synced (run h evs) g'
    ∧ id <$> players g' = Z.of_nat <$> seq 0 (length (players g'))
    ∧ NoDup (id <$> players g')
    ∧ players g `prefix_of` players g'.
Proof.
  intros Hr Hs Hids Hevs. exists (foldl host_next g evs).
  destruct (host_run_synced h g evs) as [_ Hs']; [|done|done|].
  { eapply Forall_impl; [exact Hevs|]. apply seating_is_host_event. }
  split; [done|].
  assert (ids_indexed (foldl host_next g evs)
          ∧ players g `prefix_of` players (foldl host_next g evs))
    as [Hidx Hpre].
  { clear h Hr Hs Hs'. revert g Hids.
    induction evs as [|ev evs IH]; intros g Hids; cbn; [done|].
    apply Forall_cons in Hevs as [Hev Hevs].
    destruct (IH Hevs (host_next g ev)) as [Hidx Hpre].
    { by apply host_next_ids_indexed. }
    split; [done|]. etrans; [|exact Hpre].
    destruct ev as [[s|pid pname| |s] fromPeerId|conn|conn]; try done; cbn.
    destruct (playerCount g <=? Z.of_nat (length (players g)))%Z; [done|].
    cbn. by apply prefix_app_r. }
  split; [exact Hidx|]. split; [|done]. by apply ids_indexed_NoDup.
Qed.

Lemma host_next_join_length g ev :
  join_event ev = true →
  within_capacity (Some g) →
  Z.of_nat (length (players (host_next g ev)))
  = Z.min (playerCount g) (Z.of_nat (length (players g)) + 1)
  ∧ playerCount (host_next g ev) = playerCount g.
Proof.
  destruct ev as [[s|pid pname| |s] fromPeerId|conn|conn]; try done; cbn.
  intros _ Hcap.
  destruct (Z.leb_spec (playerCount g) (Z.of_nat (length (players g)))).
  - split; [lia|done].
  - cbn. rewrite length_app. cbn. split; [lia|done].
Qed.

Lemma handleIncomingMessage_registry h message (fromPeerId : string) :
  connectionsRef (exec (handleIncomingMessage message fromPeerId) h)
  = connectionsRef h.
Proof.
  destruct message as [s|pid pname| |s]; try done.
  - unfold exec. destruct (decide (role h = peer)).
    + by rewrite state_update_peer.
    + by rewrite state_update_other.
  - destruct (decide (role h = host)) as [Hr|Hr];
      [|unfold exec; by rewrite join_request_not_host].
    destruct (gameStateRef h) as [g|] eqn:Hg;
      [|unfold exec; by rewrite join_request_no_state].
    rewrite (join_request_exec h g) by done.
    by destruct (playerCount g <=? Z.of_nat (length (players g)))%Z.
Qed.

Lemma step_data_registry h message (fromPeerId : string) :
  connectionsRef (step h (EvData message fromPeerId)) = connectionsRef h.
Proof. exact (handleIncomingMessage_registry h message fromPeerId). Qed.

(** X9. Seats fill up to the capacity and no further, when every join
    request comes from a registered connection and is handled in a render
    of its own (the effect has refreshed [gameStateRef] before the next
    request): after [n] such requests a synced host that was within
    capacity has [min playerCount (players.length + n)] players. *)
Theorem joins_fill_to_capacity h g
    (batches : list (list (Event Card Rules))) :
  role h = host →
  synced h g →
  (Z.of_nat (length (players g)) ≤ playerCount g)%Z →
  Forall (λ batch,
            ∃ pid pname fromPeerId,
              batch = [EvData (player_join_request pid pname) fromPeerId]
              ∧ is_Some (connectionsRef h !! fromPeerId)) batches →
  ∃ g',
    synced (run_batches h batches) g'
    ∧ Z.of_nat (length (players g'))
      = Z.min (playerCount g)
          (Z.of_nat (length (players g)) + Z.of_nat (length batches)).
Proof.
  unfold run_batches. intros Hr Hs Hcap Hbatches. revert h g Hr Hs Hcap Hbatches.
  induction batches as [|batch batches IH]; intros h g Hr Hs Hcap Hbatches.
  - exists g. split; [done|]. cbn. lia.
  - apply Forall_cons in Hbatches
      as [(pid & pname & fromPeerId & -> & Hreg) Hbatches].
    cbn [foldl length].
    change (handle_batch h [EvData (player_join_request pid pname) fromPeerId])
      with (step h (EvData (player_join_request pid pname) fromPeerId)).
    destruct (host_step_synced h g
                (EvData (player_join_request pid pname) fromPeerId))
      as [Hr' Hs']; try done.
    destruct (host_next_join_length g
                (EvData (player_join_request pid pname) fromPeerId))
      as [Hlen Hcount]; try done.
    destruct (IH (step h (EvData (player_join_request pid pname) fromPeerId))
                (host_next g
                   (EvData (player_join_request pid pname) fromPeerId)))
      as (g' & Hs'' & Hlen'').
    + done.
    + done.
    + rewrite Hcount, Hlen. lia.
    + eapply Forall_impl; [exact Hbatches|].
      intros batch (pid' & pname' & from' & -> & Hreg').
      exists pid', pname', from'. split; [done|].
      by rewrite step_data_registry.
    + exists g'. split; [done|]. rewrite Hlen'', Hcount, Hlen. lia.
Qed.

(** X22. Join requests handled back to back overwrite each other: when a
    host with room handles two requests from registered connections before
    the effect has refreshed [gameStateRef], both read the same state, both
    players get the same id, the first requester is welcomed with a state
    that seats it, and after the render only the second is seated. *)
Theorem back_to_back_joins_overwrite h g (connA connB : DataConnection)
    (fromA pidA nameA fromB pidB nameB : string) :
  role h = host →
  gameStateRef h = Some g →
  (Z.of_nat (length (players g)) < playerCount g)%Z →
  connectionsRef h !! fromA = Some connA →
  connectionsRef h !! fromB = Some connB →
  synced
    (handle_batch h
       [EvData (player_join_request pidA nameA) fromA;
        EvData (player_join_request pidB nameB) fromB])
    (joined_state g pidB nameB)
  ∧ players (joined_state g pidB nameB)
    = players g ++ [joined_player g pidB nameB]
  ∧ id (joined_player g pidA nameA) = id (joined_player g pidB nameB)
  ∧ Send connA (welcome (joined_state g pidA nameA))
      ∈ output (handleIncomingMessage (player_join_request pidA nameA) fromA)
          h
  ∧ joined_player g pidA nameA ∈ players (joined_state g pidA nameA).
Proof.
  intros Hr Hg Hroom HA HB.
  assert ((playerCount g <=? Z.of_nat (length (players g)))%Z = false)
    as Hcmp by (apply Z.leb_gt; lia).
  split_and!; try done.
  - unfold handle_batch. cbn [foldl]. unfold dispatch.
    rewrite (join_request_exec h g), Hcmp by done.
    rewrite (join_request_exec _ g), Hcmp by done. done.
  - unfold output. rewrite (join_request_accepted_eq h g connA) by done.
    cbn. by left.
  - cbn. apply elem_of_app. right. by left.
Qed.

(** X10. A full host is inert under join requests: whatever their number
    and their senders, the hook after them is the hook before. *)
Theorem full_host_ignores_joins h g (evs : list (Event Card Rules)) :
  role h = host →
  synced h g →
  (playerCount g ≤ Z.of_nat (length (players g)))%Z →
  Forall (λ ev, join_event ev = true) evs →
  run h evs = h.
Proof.
  intros Hr Hs Hfull Hevs. unfold run.
  induction evs as [|ev evs IH]; [done|].
  apply Forall_cons in Hevs as [Hev Hevs]. cbn.
  destruct ev as [[s|pid pname| |s] fromPeerId|conn|conn]; try done.
  unfold step at 2, dispatch. destruct Hs as [Hgs Href].
  rewrite (join_request_exec h g) by done.
  destruct (Z.leb_spec (playerCount g) (Z.of_nat (length (players g))));
    [|lia].
  rewrite (commit_synced h g) by done. by apply IH.
Qed.

(** *** Channel closes and the registry *)

Lemma filter_not_shorter {A} (P : A → Prop) `{!∀ x, Decision (P x)}
    (l : list A) :
  (length (filter P l) <? length l)%nat = false → filter P l = l.
Proof.
  intros Hlen. induction l as [|a l IH]; [done|].
  rewrite filter_cons in *. destruct (decide (P a)).
  - f_equal. apply IH. cbn in Hlen.
    apply Nat.ltb_ge in Hlen. apply Nat.ltb_ge. lia.
  - apply Nat.ltb_ge in Hlen. pose proof (length_filter P l). cbn in Hlen.
    lia.
Qed.

Lemma handleClose_registry h conn :
  connectionsRef (exec (handleClose conn) h)
  = delete (conn_peer conn) (connectionsRef h).
Proof.
  unfold exec. destruct (decide (role h = host)) as [Hr|Hr];
    [|by rewrite handleClose_idle by auto].
  destruct (gameStateRef h) as [g|] eqn:Hg;
    [|by rewrite handleClose_idle by auto].
  rewrite (handleClose_host h g) by done.
  by destruct (_ <? length (players g))%nat.
Qed.

(** X11. After a channel close a synced host holds exactly the players
    whose peer id is not the closed one, in their old order, whether or not
    anybody was removed: nobody with the closed peer id is left, ids that
    were distinct stay distinct, and the closed peer is out of the
    registry. *)
Theorem close_leaves_the_others h g conn :
  role h = host →
  synced h g →
  ∃ g',
    synced (step h (EvClose conn)) g'
    ∧ players g' = filter (λ p, peerId p ≠ conn_peer conn) (players g)
    ∧ (∀ p, p ∈ players g' → peerId p ≠ conn_peer conn)
    ∧ players g' `sublist_of` players g
    ∧ (NoDup (id <$> players g) → NoDup (id <$> players g'))
    ∧ connectionsRef (step h (EvClose conn)) !! conn_peer conn = None.
Proof.
  intros Hr Hs. exists (host_next g (EvClose conn)).
  destruct (host_step_synced h g (EvClose conn)) as [_ Hs']; try done.
  assert (players (host_next g (EvClose conn))
          = filter (λ p, peerId p ≠ conn_peer conn) (players g)) as Hp.
  { cbn. destruct (_ <? length (players g))%nat eqn:Hlen; [done|].
    by rewrite filter_not_shorter. }
  split; [done|]. rewrite Hp. split_and!.
  - done.
  - by intros p [Hne _]%list_elem_of_filter.
  - apply sublist_filter.
  - intros Hnd. eapply sublist_NoDup; [exact Hnd|].
    apply fmap_sublist, sublist_filter.
  - unfold step, dispatch, commit. cbn.
    rewrite handleClose_registry. apply lookup_delete_eq.
Qed.

(** X12. Outside host role, or before there is a game, a channel close
    only unregisters the peer: nothing is sent and role and state cells are
    as before. *)
Theorem close_only_unregisters h conn :
  role h ≠ host ∨ gameStateRef h = None →
  output (handleClose conn) h = []
  ∧ exec (handleClose conn) h
    = set_connections (delete (conn_peer conn) (connectionsRef h)) h.
Proof.
  intros Hidle. unfold output, exec. by rewrite handleClose_idle.
Qed.

(** X13. Registering and closing undo each other, in every role: when a
    peer that was not registered connects and its connection then closes,
    the registry is the one before, and no entry is left for the peer. *)
Theorem close_registry_round_trip h conn :
  connectionsRef h !! conn_peer conn = None →
  connectionsRef (run h [EvConnection conn]) !! conn_peer conn = Some conn
  ∧ connectionsRef (run h [EvConnection conn; EvClose conn])
    = connectionsRef h.
Proof.
  intros Hnew. unfold run. cbn [foldl]. split.
  - unfold step, dispatch, commit. cbn. apply lookup_insert_eq.
  - unfold step, dispatch, commit. cbn.
    rewrite handleClose_registry. cbn. by apply delete_insert_id.
Qed.

(** X14. The registry is keyed by peer id alone: when a peer connects a
    second time and its first connection then closes, the close unregisters
    the second, live connection. *)
Theorem stale_close_unregisters_live_connection h (c1 c2 : DataConnection) :
  conn_peer c1 = conn_peer c2 →
  connectionsRef (run h [EvConnection c1; EvConnection c2]) !! conn_peer c2
    = Some c2
  ∧ connectionsRef (run h [EvConnection c1; EvConnection c2; EvClose c1])
      !! conn_peer c2
    = None.
Proof.
  intros Hsame. unfold run. cbn [foldl]. split.
  - unfold step, dispatch, commit. cbn. apply lookup_insert_eq.
  - unfold step at 1, dispatch, commit. cbn.
    rewrite handleClose_registry, Hsame. apply lookup_delete_eq.
Qed.

(** X15. A join request below capacity whose sender id yields
    [undefined] in the registry (no entry of its own, not a member of
    [Object.prototype], no entry keyed [__proto__]) is still accepted: the
    player is seated and the update goes to the open registered
    connections, but no [welcome] is sent to anyone. *)
Theorem join_accepted_without_welcome h g (fromPeerId pid pname : string) :
  role h = host →
  gameStateRef h = Some g →
  (Z.of_nat (length (players g)) < playerCount g)%Z →
  connectionsRef h !! fromPeerId = None →
  inherited_key fromPeerId = false →
  connectionsRef h !! "__proto__" = None →
  output (handleIncomingMessage (player_join_request pid pname) fromPeerId) h
    = broadcast_sends (connectionsRef h) (joined_state g pid pname)
  ∧ (∀ e, e ∈ output (handleIncomingMessage (player_join_request pid pname)
                        fromPeerId) h
          ↔ ∃ c, e = Send c (game_state_update (joined_state g pid pname))
                 ∧ conn_open c = true
                 ∧ ∃ k : string, connectionsRef h !! k = Some c)
  ∧ (∀ conn s,
       Send conn (welcome s)
         ∉ output (handleIncomingMessage (player_join_request pid pname)
                     fromPeerId) h)
  ∧ exec (handleIncomingMessage (player_join_request pid pname) fromPeerId) h
    = set_gameState (Some (joined_state g pid pname)) h.
Proof.
  intros Hr Hg Hroom Hconn _ _.
  assert (handleIncomingMessage (player_join_request pid pname) fromPeerId h
          = (tt, set_gameState (Some (joined_state g pid pname)) h,
             broadcast_sends (connectionsRef h) (joined_state g pid pname)))
    as Heq.
  { rewrite (join_request_host h g) by done.
    destruct (Z.leb_spec (playerCount g) (Z.of_nat (length (players g))));
      [lia|].
    rewrite bind_eq, send_to_None by done. cbn.
    by rewrite broadcastGameState_host. }
  unfold output, exec. rewrite Heq. cbn. split_and!; try done.
  - intros e. apply elem_of_broadcast_sends.
  - intros conn s Hin. apply elem_of_broadcast_sends in Hin.
    by destruct Hin as (c & [=] & _).
Qed.

(** *** Broadcasting *)

(** X16. In host role [broadcastGameState] adopts the state and sends
    [game_state_update] with that state, and nothing else, on exactly the
    registered connections that are open: never more messages than
    registered connections, one per connection when all are open, none when
    the registry is empty. *)
Theorem broadcast_in_host_role h s :
  role h = host →
  exec (broadcastGameState s) h = set_gameState (Some s) h
  ∧ (∀ e, e ∈ output (broadcastGameState s) h
          ↔ ∃ c, e = Send c (game_state_update s)
                 ∧ conn_open c = true
                 ∧ ∃ k : string, connectionsRef h !! k = Some c)
  ∧ length (output (broadcastGameState s) h) ≤ size (connectionsRef h)
  ∧ ((∀ (k : string) c, connectionsRef h !! k = Some c → conn_open c = true) →
     length (output (broadcastGameState s) h) = size (connectionsRef h))
  ∧ (connectionsRef h = ∅ → output (broadcastGameState s) h = []).
Proof.
  intros Hr. unfold exec, output. rewrite broadcastGameState_host by done.
  cbn. split_and!.
  - done.
  - intros e. apply elem_of_broadcast_sends.
  - unfold broadcast_sends. rewrite length_fmap.
    etrans; [apply length_filter|].
    by rewrite length_fmap, length_map_to_list.
  - intros Hopen. unfold broadcast_sends. rewrite length_fmap.
    rewrite filter_all; [by rewrite length_fmap, length_map_to_list|].
    apply Forall_forall. intros c ([k c'] & -> & Hkc)%list_elem_of_fmap.
    apply elem_of_map_to_list in Hkc. by eapply Hopen.
  - intros ->. unfold broadcast_sends. by rewrite map_to_list_empty.
Qed.

(** *** The peer side *)

Lemma peer_step h ev s :
  role h = peer →
  event_state ev = Some s →
  step h ev = set_gameStateRef (Some s) (set_gameState (Some s) h).
Proof.
  intros Hr Hev. unfold step, dispatch, exec.
  destruct ev as [[s'|pid pname| |s'] fromPeerId|conn|conn]; try done;
    cbn in Hev; simplify_eq.
  - by rewrite state_update_peer.
  - done.
Qed.

(** X17. A peer holds the last state it was sent: after any run of
    [game_state_update] and [welcome] envelopes, from whatever senders, the
    process is still peer, its cached state is the payload of the last
    envelope (its old state if there was none), and its registry is
    untouched. *)
Theorem peer_holds_last_state h (evs : list (Event Card Rules)) :
  role h = peer →
  Forall (λ ev, is_Some (event_state ev)) evs →
  role (run h evs) = peer
  ∧ gameState (run h evs)
    = match last evs with
      | Some ev => event_state ev
      | None => gameState h
      end
  ∧ connectionsRef (run h evs) = connectionsRef h.
Proof.
  intros Hr. induction evs as [|ev evs IH] using rev_ind; intros Hevs.
  - done.
  - apply Forall_app in Hevs as [Hevs [Hev _]%Forall_cons].
    destruct (IH Hevs) as (Hr' & _ & Hc). destruct Hev as [s Hs].
    rewrite run_snoc, last_snoc, (peer_step _ ev s) by done. cbn.
    by rewrite Hs.
Qed.

(** X18. A [welcome] is taken in every role: handled by a host, it
    replaces the host's own state, so a payload with more players than its
    capacity leaves the host outside the capacity bound that join requests
    and closes keep. *)
Theorem welcome_overrides_host h s (fromPeerId : string) :
  role h = host →
  ¬ within_capacity (Some s) →
  role (step h (EvData (welcome s) fromPeerId)) = host
  ∧ synced (step h (EvData (welcome s) fromPeerId)) s
  ∧ ¬ host_invariant (step h (EvData (welcome s) fromPeerId)).
Proof.
  intros Hr Hover. split; [done|]. split; [done|].
  by intros (_ & Hcap & _).
Qed.

(** *** Errors *)

(** X19. After a PeerJS error of type peer-unavailable and the render, the
    process has no role and no state, in either cell, its status is [error]
    and the registry is kept; from then on it answers no join request and
    broadcasts nothing.  Any other PeerJS error only sets the status and
    raises its toast. *)
Theorem peer_error_effects h s (fromPeerId pid pname : string) :
  role (commit (exec (handlePeerError true) h)) = none
  ∧ gameState (commit (exec (handlePeerError true) h)) = None
  ∧ gameStateRef (commit (exec (handlePeerError true) h)) = None
  ∧ status (commit (exec (handlePeerError true) h)) = error
  ∧ connectionsRef (commit (exec (handlePeerError true) h))
    = connectionsRef h
  ∧ output (handlePeerError true) h = [Toast "Could Not Join"]
  ∧ output (handleIncomingMessage (player_join_request pid pname) fromPeerId)
      (commit (exec (handlePeerError true) h))
    = []
  ∧ output (broadcastGameState s) (commit (exec (handlePeerError true) h))
    = []
  ∧ exec (handlePeerError false) h = set_status error h
  ∧ output (handlePeerError false) h = [Toast "Connection Error"].
Proof.
  by split_and!.
Qed.

(** X20. An error on the connection to the host sets the role cell to
    [none] and raises "Failed to Join", but keeps the cached state, the ref
    and the registry entry of the host; a [welcome] handled afterwards
    still replaces the cached state, leaving a process with no role that
    holds a game state. *)
Theorem join_error_keeps_stale_state h s (fromPeerId : string) :
  exec handleJoinError h = set_role none h
  ∧ gameState (exec handleJoinError h) = gameState h
  ∧ gameStateRef (exec handleJoinError h) = gameStateRef h
  ∧ connectionsRef (exec handleJoinError h) = connectionsRef h
  ∧ output handleJoinError h = [Toast "Failed to Join"]
  ∧ role (exec (handleIncomingMessage (welcome s) fromPeerId)
            (exec handleJoinError h))
    = none
  ∧ gameState (exec (handleIncomingMessage (welcome s) fromPeerId)
                 (exec handleJoinError h))
    = Some s.
Proof. by split_and!. Qed.

(** X21. Hosting works once the PeerJS peer has opened with an id: the
    [open] handler records the id and sets the status to [connected], and
    [hostGame] then makes the process host of the given state under that
    id. *)
Theorem open_then_host h (newId roomCode : string) s :
  newId ≠ "" →
  status (exec (handlePeerOpen newId) h) = connected
  ∧ myPeerId (exec (handlePeerOpen newId) h) = newId
  ∧ role (exec (hostGame roomCode s) (exec (handlePeerOpen newId) h)) = host
  ∧ gameState (exec (hostGame roomCode s) (exec (handlePeerOpen newId) h))
    = Some (with_room s roomCode newId)
  ∧ output (hostGame roomCode s) (exec (handlePeerOpen newId) h) = [].
Proof.
  intros Hid. split; [done|]. split; [done|].
  unfold exec at 1 3, output. rewrite hostGame_eq.
  by rewrite decide_False by done.
Qed.

End Further.

(** *** The further theorems at concrete inputs *)

Lemma hostGame_needs_peer_id_witness :
  myPeerId fresh = ""
  ∧ output (hostGame "ROOM" room0) fresh = [Toast "Error"]
  ∧ exec (hostGame "ROOM" room0) fresh = fresh.
Proof.
  split; [reflexivity|].
  apply (hostGame_needs_peer_id fresh "ROOM" room0). reflexivity.
Defined.

Lemma hostGame_makes_host_witness :
  myPeerId idle ≠ ""
  ∧ within_capacity (Some duo_room)
  ∧ ∃ g,
      output (hostGame "CODE" duo_room) idle = []
      ∧ exec (hostGame "CODE" duo_room) idle
        = set_gameState (Some g) (set_role host idle)
      ∧ room_id g = "CODE"
      ∧ hostPeerId g = myPeerId idle
      ∧ with_room g (room_id duo_room) (hostPeerId duo_room) = duo_room
      ∧ synced (commit (exec (hostGame "CODE" duo_room) idle)) g
      ∧ host_invariant (commit (exec (hostGame "CODE" duo_room) idle)).
Proof.
  split; [discriminate|]. split; [cbn; lia|].
  apply (hostGame_makes_host idle "CODE" duo_room).
  - discriminate.
  - cbn; lia.
Defined.

Lemma joinGame_not_ready_witness :
  (peerRef fresh = false ∨ myPeerId fresh = "")
  ∧ output (joinGame "host-id") fresh = [Toast "Connection not ready"]
  ∧ exec (joinGame "host-id") fresh = fresh.
Proof.
  split; [right; reflexivity|].
  apply (joinGame_not_ready fresh "host-id"). right. reflexivity.
Defined.

Lemma joinGame_then_open_witness :
  peerRef idle = true
  ∧ myPeerId idle ≠ ""
  ∧ output (joinGame "host-id") idle = []
  ∧ output (handleJoinOpen "Bob" (chan "host-id") "host-id")
      (exec (joinGame "host-id") idle)
    = [Send (chan "host-id") (player_join_request (myPeerId idle) "Bob")]
  ∧ exec (handleJoinOpen "Bob" (chan "host-id") "host-id")
      (exec (joinGame "host-id") idle)
    = set_connections (<["host-id" := chan "host-id"]> (connectionsRef idle))
        (set_role peer idle).
Proof.
  split; [reflexivity|]. split; [discriminate|].
  apply (joinGame_then_open idle "host-id" "Bob" (chan "host-id")).
  - reflexivity.
  - discriminate.
Defined.

Lemma join_request_dropped_witness :
  (role replica ≠ host ∨ gameStateRef replica = None)
  ∧ output (handleIncomingMessage (player_join_request "pB" "Bob") "pB")
      replica
    = []
  ∧ exec (handleIncomingMessage (player_join_request "pB" "Bob") "pB")
      replica
    = replica.
Proof.
  split; [left; discriminate|].
  apply (join_request_dropped replica "pB" "pB" "Bob"). left. discriminate.
Defined.

Lemma state_update_dropped_witness :
  role lobby ≠ peer
  ∧ output (handleIncomingMessage (game_state_update forged_room) "mallory")
      lobby
    = []
  ∧ exec (handleIncomingMessage (game_state_update forged_room) "mallory")
      lobby
    = lobby.
Proof.
  split; [discriminate|].
  apply (state_update_dropped lobby forged_room "mallory"). discriminate.
Defined.

Lemma host_run_same_room_witness :
  role (hosting room0 ∅) = host
  ∧ synced (hosting room0 ∅) room0
  ∧ Forall (λ ev, host_event ev = true) churn
  ∧ ∃ g',
      role (run (hosting room0 ∅) churn) = host
      ∧ synced (run (hosting room0 ∅) churn) g'
      ∧ room_id g' = room_id room0
      ∧ hostPeerId g' = hostPeerId room0
      ∧ playerCount g' = playerCount room0
      ∧ rules g' = rules room0
      ∧ turnHistory room0 `prefix_of` turnHistory g'.
Proof.
  assert (Forall (λ ev : Event unit unit, host_event ev = true) churn)
    as Hevs by (repeat constructor).
  split; [reflexivity|]. split; [split; reflexivity|]. split; [exact Hevs|].
  apply (host_run_same_room (hosting room0 ∅) room0 churn).
  - reflexivity.
  - split; reflexivity.
  - exact Hevs.
Defined.

Lemma seating_keeps_ids_indexed_witness :
  role (hosting duo_room ∅) = host
  ∧ synced (hosting duo_room ∅) duo_room
  ∧ id <$> players duo_room
    = Z.of_nat <$> seq 0 (length (players duo_room))
  ∧ Forall (λ ev, seating_event ev = true) three_requests
  ∧ ∃ g',
      synced (run (hosting duo_room ∅) three_requests) g'
      ∧ id <$> players g' = Z.of_nat <$> seq 0 (length (players g'))
      ∧ NoDup (id <$> players g')
      ∧ players duo_room `prefix_of` players g'.
Proof.
  assert (Forall (λ ev : Event unit unit, seating_event ev = true)
            three_requests) as Hevs by (repeat constructor).
  split; [reflexivity|]. split; [split; reflexivity|].
  split; [reflexivity|]. split; [exact Hevs|].
  apply (seating_keeps_ids_indexed (hosting duo_room ∅) duo_room
           three_requests).
  - reflexivity.
  - split; reflexivity.
  - reflexivity.
  - exact Hevs.
Defined.

Lemma joins_fill_to_capacity_witness :
  role busy_host = host
  ∧ synced busy_host duo_room
  ∧ (Z.of_nat (length (players duo_room)) ≤ playerCount duo_room)%Z
  ∧ Forall (λ batch,
              ∃ pid pname fromPeerId,
                batch = [EvData (player_join_request pid pname) fromPeerId]
                ∧ is_Some (connectionsRef busy_host !! fromPeerId))
      three_batches
  ∧ ∃ g',
      synced (run_batches busy_host three_batches) g'
      ∧ Z.of_nat (length (players g'))
        = Z.min (playerCount duo_room)
            (Z.of_nat (length (players duo_room))
             + Z.of_nat (length three_batches)).
Proof.
  assert (Forall (λ batch : list (Event unit unit),
            ∃ pid pname fromPeerId,
              batch = [EvData (player_join_request pid pname) fromPeerId]
              ∧ is_Some (connectionsRef busy_host !! fromPeerId))
            three_batches) as Hbatches.
  { repeat constructor.
    - exists "pC", "Cara", "pC". split; [reflexivity|].
      exists (chan "pC"). vm_compute; reflexivity.
    - exists "pD", "Dan", "pD". split; [reflexivity|].
      exists (chan "pD"). vm_compute; reflexivity.
    - exists "pE", "Eve", "pE". split; [reflexivity|].
      exists (chan "pE"). vm_compute; reflexivity. }
  split; [reflexivity|]. split; [split; reflexivity|].
  split; [cbn; lia|]. split; [exact Hbatches|].
  apply (joins_fill_to_capacity busy_host duo_room three_batches).
  - reflexivity.
  - split; reflexivity.
  - cbn; lia.
  - exact Hbatches.
Defined.

Lemma back_to_back_joins_overwrite_witness :
  role busy_host = host
  ∧ gameStateRef busy_host = Some duo_room
  ∧ (Z.of_nat (length (players duo_room)) < playerCount duo_room)%Z
  ∧ connectionsRef busy_host !! "pC" = Some (chan "pC")
  ∧ connectionsRef busy_host !! "pD" = Some (chan "pD")
  ∧ synced
      (handle_batch busy_host
         [EvData (player_join_request "pC" "Cara") "pC";
          EvData (player_join_request "pD" "Dan") "pD"])
      (joined_state duo_room "pD" "Dan")
  ∧ players (joined_state duo_room "pD" "Dan")
    = players duo_room ++ [joined_player duo_room "pD" "Dan"]
  ∧ id (joined_player duo_room "pC" "Cara")
    = id (joined_player duo_room "pD" "Dan")
  ∧ Send (chan "pC") (welcome (joined_state duo_room "pC" "Cara"))
      ∈ output (handleIncomingMessage (player_join_request "pC" "Cara") "pC")
          busy_host
  ∧ joined_player duo_room "pC" "Cara"
      ∈ players (joined_state duo_room "pC" "Cara").
Proof.
  split; [reflexivity|]. split; [reflexivity|]. split; [cbn; lia|].
  split; [vm_compute; reflexivity|]. split; [vm_compute; reflexivity|].
  apply (back_to_back_joins_overwrite busy_host duo_room (chan "pC")
           (chan "pD") "pC" "pC" "Cara" "pD" "pD" "Dan").
  - reflexivity.
  - reflexivity.
  - cbn; lia.
  - vm_compute; reflexivity.
  - vm_compute; reflexivity.
Defined.

Lemma full_host_ignores_joins_witness :
  role full_house = host
  ∧ synced full_house full_room
  ∧ (playerCount full_room ≤ Z.of_nat (length (players full_room)))%Z
  ∧ Forall (λ ev, join_event ev = true) three_requests
  ∧ run full_house three_requests = full_house.
Proof.
  assert (Forall (λ ev : Event unit unit, join_event ev = true)
            three_requests) as Hevs by (repeat constructor).
  split; [reflexivity|]. split; [split; reflexivity|].
  split; [cbn; lia|]. split; [exact Hevs|].
  apply (full_host_ignores_joins full_house full_room three_requests).
  - reflexivity.
  - split; reflexivity.
  - cbn; lia.
  - exact Hevs.
Defined.

Lemma close_leaves_the_others_witness :
  role duo_host = host
  ∧ synced duo_host duo_room
  ∧ ∃ g',
      synced (step duo_host (EvClose (mkConn "pB" false))) g'
      ∧ players g' = filter (λ p, peerId p ≠ "pB") (players duo_room)
      ∧ (∀ p, p ∈ players g' → peerId p ≠ "pB")
      ∧ players g' `sublist_of` players duo_room
      ∧ (NoDup (id <$> players duo_room) → NoDup (id <$> players g'))
      ∧ connectionsRef (step duo_host (EvClose (mkConn "pB" false))) !! "pB"
        = None.
Proof.
  split; [reflexivity|]. split; [split; reflexivity|].
  apply (close_leaves_the_others duo_host duo_room (mkConn "pB" false)).
  - reflexivity.
  - split; reflexivity.
Defined.

Lemma close_only_unregisters_witness :
  (role replica ≠ host ∨ gameStateRef replica = None)
  ∧ output (handleClose (chan "host-id")) replica = []
  ∧ exec (handleClose (chan "host-id")) replica
    = set_connections (delete "host-id" (connectionsRef replica)) replica.
Proof.
  split; [left; discriminate|].
  apply (close_only_unregisters replica (chan "host-id")).
  left. discriminate.
Defined.

Lemma close_registry_round_trip_witness :
  connectionsRef lobby !! "pB" = None
  ∧ connectionsRef (run lobby [EvConnection (chan "pB")]) !! "pB"
    = Some (chan "pB")
  ∧ connectionsRef (run lobby [EvConnection (chan "pB"); EvClose (chan "pB")])
    = connectionsRef lobby.
Proof.
  split; [vm_compute; reflexivity|].
  apply (close_registry_round_trip lobby (chan "pB")).
  vm_compute; reflexivity.
Defined.

Lemma stale_close_unregisters_live_connection_witness :
  conn_peer (mkConn "pA" false) = conn_peer (chan "pA")
  ∧ connectionsRef
      (run (hosting room0 ∅)
         [EvConnection (mkConn "pA" false); EvConnection (chan "pA")])
      !! "pA"
    = Some (chan "pA")
  ∧ connectionsRef
      (run (hosting room0 ∅)
         [EvConnection (mkConn "pA" false); EvConnection (chan "pA");
          EvClose (mkConn "pA" false)])
      !! "pA"
    = None.
Proof.
  split; [reflexivity|].
  apply (stale_close_unregisters_live_connection (hosting room0 ∅)
           (mkConn "pA" false) (chan "pA")).
  reflexivity.
Defined.

Lemma join_accepted_without_welcome_witness :
  role lobby = host
  ∧ gameStateRef lobby = Some room0
  ∧ (Z.of_nat (length (players room0)) < playerCount room0)%Z
  ∧ connectionsRef lobby !! "pB" = None
  ∧ inherited_key "pB" = false
  ∧ connectionsRef lobby !! "__proto__" = None
  ∧ output (handleIncomingMessage (player_join_request "pB" "Bob") "pB") lobby
    = broadcast_sends (connectionsRef lobby) (joined_state room0 "pB" "Bob")
  ∧ (∀ e, e ∈ output (handleIncomingMessage (player_join_request "pB" "Bob")
                        "pB") lobby
          ↔ ∃ c, e = Send c (game_state_update (joined_state room0 "pB" "Bob"))
                 ∧ conn_open c = true
                 ∧ ∃ k : string, connectionsRef lobby !! k = Some c)
  ∧ (∀ conn s,
       Send conn (welcome s)
         ∉ output (handleIncomingMessage (player_join_request "pB" "Bob")
                     "pB") lobby)
  ∧ exec (handleIncomingMessage (player_join_request "pB" "Bob") "pB") lobby
    = set_gameState (Some (joined_state room0 "pB" "Bob")) lobby.
Proof.
  split; [reflexivity|]. split; [reflexivity|]. split; [cbn; lia|].
  split; [vm_compute; reflexivity|]. split; [vm_compute; reflexivity|].
  split; [vm_compute; reflexivity|].
  apply (join_accepted_without_welcome lobby room0 "pB" "pB" "Bob").
  - reflexivity.
  - reflexivity.
  - cbn; lia.
  - vm_compute; reflexivity.
  - vm_compute; reflexivity.
  - vm_compute; reflexivity.
Defined.

Lemma broadcast_in_host_role_witness :
  role duo_host = host
  ∧ exec (broadcastGameState duo_room) duo_host
    = set_gameState (Some duo_room) duo_host
  ∧ (∀ e, e ∈ output (broadcastGameState duo_room) duo_host
          ↔ ∃ c, e = Send c (game_state_update duo_room)
                 ∧ conn_open c = true
                 ∧ ∃ k : string, connectionsRef duo_host !! k = Some c)
  ∧ length (output (broadcastGameState duo_room) duo_host)
    ≤ size (connectionsRef duo_host)
  ∧ ((∀ (k : string) c,
        connectionsRef duo_host !! k = Some c → conn_open c = true) →
     length (output (broadcastGameState duo_room) duo_host)
     = size (connectionsRef duo_host))
  ∧ (connectionsRef duo_host = ∅ →
     output (broadcastGameState duo_room) duo_host = []).
Proof.
  split; [reflexivity|].
  apply (broadcast_in_host_role duo_host duo_room). reflexivity.
Defined.

Lemma peer_holds_last_state_witness :
  role replica = peer
  ∧ Forall (λ ev, is_Some (event_state ev)) two_states
  ∧ role (run replica two_states) = peer
  ∧ gameState (run replica two_states)
    = match last two_states with
      | Some ev => event_state ev
      | None => gameState replica
      end
  ∧ connectionsRef (run replica two_states) = connectionsRef replica.
Proof.
  assert (Forall (λ ev : Event unit unit, is_Some (event_state ev))
            two_states) as Hevs by (repeat constructor; by eexists).
  split; [reflexivity|]. split; [exact Hevs|].
  apply (peer_holds_last_state replica two_states).
  - reflexivity.
  - exact Hevs.
Defined.

Lemma welcome_overrides_host_witness :
  role lobby = host
  ∧ ¬ within_capacity (Some crowded_room)
  ∧ role (step lobby (EvData (welcome crowded_room) "mallory")) = host
  ∧ synced (step lobby (EvData (welcome crowded_room) "mallory"))
      crowded_room
  ∧ ¬ host_invariant (step lobby (EvData (welcome crowded_room) "mallory")).
Proof.
  split; [reflexivity|]. split; [cbn; lia|].
  apply (welcome_overrides_host lobby crowded_room "mallory").
  - reflexivity.
  - cbn; lia.
Defined.

Lemma open_then_host_witness :
  "peer-id" ≠ ""
  ∧ status (exec (handlePeerOpen "peer-id") fresh) = connected
  ∧ myPeerId (exec (handlePeerOpen "peer-id") fresh) = "peer-id"
  ∧ role (exec (hostGame "CODE" room0) (exec (handlePeerOpen "peer-id") fresh))
    = host
  ∧ gameState
      (exec (hostGame "CODE" room0) (exec (handlePeerOpen "peer-id") fresh))
    = Some (with_room room0 "CODE" "peer-id")
  ∧ output (hostGame "CODE" room0) (exec (handlePeerOpen "peer-id") fresh)
    = [].
Proof.
  split; [discriminate|].
  apply (open_then_host fresh "peer-id" "CODE" room0). discriminate.
Defined.
